(** * Dungeon Escape: the game-state engine of [app.js]

    A shallow embedding of the browser text adventure.  The script keeps
    its whole state in three places: the [gameRunning] flag, the [player]
    object and the [rooms] table (whose [items] arrays and [blockedExits]
    objects are mutated in place), plus what it writes into the page
    (the output console, the input field, two [hidden] classes).  Every
    function of the script becomes a computation over that state.

    Strings are sequences of code units below 256 (the Latin-1 range);
    input with larger code units is outside this model. *)

From Stdlib Require Import String Ascii List Bool Arith Lia.
Import ListNotations.
Local Open Scope string_scope.
Local Open Scope list_scope.

(** ** The JavaScript runtime pieces the script relies on *)

Module Js.

(** [String.prototype.trim] strips WhiteSpace and LineTerminator code
    points: TAB, LF, VT, FF, CR, SPACE and NBSP in this range. *)
Definition isWhiteSpace (c : ascii) : bool :=
  let n := nat_of_ascii c in
  ((9 <=? n)%nat && (n <=? 13)%nat) || (n =? 32)%nat || (n =? 160)%nat.

Fixpoint trimStart (s : string) : string :=
  match s with
  | EmptyString => EmptyString
  | String c s' => if isWhiteSpace c then trimStart s' else s
  end.

Fixpoint trimEnd (s : string) : string :=
  match s with
  | EmptyString => EmptyString
  | String c s' =>
      match trimEnd s' with
      | EmptyString => if isWhiteSpace c then EmptyString else String c EmptyString
      | t => String c t
      end
  end.

Definition trim (s : string) : string := trimEnd (trimStart s).

(** [String.prototype.toLowerCase] on one code unit: A-Z and the
    accented capitals U+00C0..U+00DE (without the multiplication sign). *)
Definition lowerChar (c : ascii) : ascii :=
  let n := nat_of_ascii c in
  if ((65 <=? n)%nat && (n <=? 90)%nat)
     || ((192 <=? n)%nat && (n <=? 222)%nat && negb (n =? 215)%nat)
  then ascii_of_nat (n + 32) else c.

Fixpoint toLowerCase (s : string) : string :=
  match s with
  | EmptyString => EmptyString
  | String c s' => String (lowerChar c) (toLowerCase s')
  end.

Definition space : ascii := " "%char.

(** [s.split(' ')]: the pieces between single space characters, empty
    pieces included; never the empty array. *)
Fixpoint split (s : string) : list string :=
  match s with
  | EmptyString => [EmptyString]
  | String c s' =>
      if Ascii.eqb c space then EmptyString :: split s'
      else match split s' with
           | h :: t => String c h :: t
           | [] => [String c EmptyString]
           end
  end.

(** [parts.join(' ')]. *)
Fixpoint join (parts : list string) : string :=
  match parts with
  | [] => EmptyString
  | [p] => p
  | p :: rest => (p ++ " " ++ join rest)%string
  end.

(** [Array.prototype.includes] on an array of strings. *)
Fixpoint includes (xs : list string) (x : string) : bool :=
  match xs with
  | [] => false
  | y :: ys => String.eqb y x || includes ys x
  end.

(** The same test when the searched value comes out of an array
    destructuring and may be [undefined]. *)
Definition includes_opt (xs : list string) (x : option string) : bool :=
  match x with
  | Some s => includes xs s
  | None => false
  end.

(** [xs.filter(i => i !== x)]. *)
Definition without (x : string) (xs : list string) : list string :=
  filter (fun i => negb (String.eqb i x)) xs.

(** What a property read [o[k]] on an object literal with string
    values can give: an own property, a member inherited from
    [Object.prototype], or [undefined].  Printed, an inherited member
    shows as whatever text the page's string conversion gives it. *)
Inductive value : Type :=
| VString (s : string)
| VInherited (k : string)
| VUndefined.

(** Own properties of an object literal. *)
Definition obj : Type := list (string * string).

(** Property names every object literal inherits from
    [Object.prototype]; each of them reads as a function or an object. *)
Definition objectPrototypeKeys : list string :=
  [ "constructor"; "__proto__"; "hasOwnProperty"; "isPrototypeOf";
    "propertyIsEnumerable"; "toLocaleString"; "toString"; "valueOf";
    "__defineGetter__"; "__defineSetter__";
    "__lookupGetter__"; "__lookupSetter__" ].

Fixpoint own (o : obj) (k : string) : option string :=
  match o with
  | [] => None
  | (k', v) :: o' => if String.eqb k' k then Some v else own o' k
  end.

Definition inherits (k : string) : bool := includes objectPrototypeKeys k.

(** [o[k]]. *)
Definition get (o : obj) (k : string) : value :=
  match own o k with
  | Some v => VString v
  | None => if inherits k then VInherited k else VUndefined
  end.

(** [delete o.k]. *)
Definition delete (o : obj) (k : string) : obj :=
  filter (fun p => negb (String.eqb (fst p) k)) o.

(** ToBoolean. *)
Definition truthy (v : value) : bool :=
  match v with
  | VString s => negb (String.eqb s "")
  | VInherited _ => true
  | VUndefined => false
  end.

End Js.

(** ** Data model *)

Module Room.
Record t : Type := mk {
  name : string;
  description : string;
  exits : Js.obj;
  items : list string;
  blockedExits : Js.obj
}.

Definition set_items (l : list string) (r : t) : t :=
  mk (name r) (description r) (exits r) l (blockedExits r).

Definition set_blockedExits (b : Js.obj) (r : t) : t :=
  mk (name r) (description r) (exits r) (items r) b.
End Room.

(** The [rooms] table: a constant object with exactly three keys. *)
Module Rooms.
Record t : Type := mk {
  cell : Room.t;
  hallway : Room.t;
  armory : Room.t
}.

(** [rooms[id]] for the table's own keys. *)
Definition at_ (rs : t) (id : string) : option Room.t :=
  if String.eqb id "cell" then Some (cell rs)
  else if String.eqb id "hallway" then Some (hallway rs)
  else if String.eqb id "armory" then Some (armory rs)
  else None.

Definition set_cell (r : Room.t) (rs : t) : t := mk r (hallway rs) (armory rs).
Definition set_hallway (r : Room.t) (rs : t) : t := mk (cell rs) r (armory rs).
Definition set_armory (r : Room.t) (rs : t) : t := mk (cell rs) (hallway rs) r.

(** A write through the alias [room = rooms[id]]. *)
Definition update (id : string) (f : Room.t -> Room.t) (rs : t) : t :=
  if String.eqb id "cell" then set_cell (f (cell rs)) rs
  else if String.eqb id "hallway" then set_hallway (f (hallway rs)) rs
  else if String.eqb id "armory" then set_armory (f (armory rs)) rs
  else rs.
End Rooms.

Module Player.
Record t : Type := mk {
  currentRoom : string;
  inventory : list string
}.
End Player.

(** One paragraph appended to the output console by [print]. *)
Record Line : Type := mkLine {
  text : Js.value;
  className : string
}.

(** What the script reads and writes in the page. *)
Module Dom.
Record t : Type := mk {
  startButtonHidden : bool;
  inputAreaHidden : bool;
  outputConsole : list Line;
  commandInput : string
}.
End Dom.

Record World : Type := mkWorld {
  gameRunning : bool;
  player : Player.t;
  rooms : Rooms.t;
  dom : Dom.t
}.

Definition set_gameRunning (b : bool) (w : World) : World :=
  mkWorld b (player w) (rooms w) (dom w).
Definition set_player (p : Player.t) (w : World) : World :=
  mkWorld (gameRunning w) p (rooms w) (dom w).
Definition set_rooms (rs : Rooms.t) (w : World) : World :=
  mkWorld (gameRunning w) (player w) rs (dom w).
Definition set_dom (d : Dom.t) (w : World) : World :=
  mkWorld (gameRunning w) (player w) (rooms w) d.

Definition currentRoom (w : World) : string := Player.currentRoom (player w).
Definition inventory (w : World) : list string := Player.inventory (player w).
Definition outputConsole (w : World) : list Line := Dom.outputConsole (dom w).

Definition set_currentRoom (id : string) (w : World) : World :=
  set_player (Player.mk id (inventory w)) w.
Definition set_inventory (l : list string) (w : World) : World :=
  set_player (Player.mk (currentRoom w) l) w.
Definition set_outputConsole (ls : list Line) (w : World) : World :=
  set_dom (Dom.mk (Dom.startButtonHidden (dom w)) (Dom.inputAreaHidden (dom w))
                  ls (Dom.commandInput (dom w))) w.
Definition set_commandInput (s : string) (w : World) : World :=
  set_dom (Dom.mk (Dom.startButtonHidden (dom w)) (Dom.inputAreaHidden (dom w))
                  (Dom.outputConsole (dom w)) s) w.
Definition set_startButtonHidden (b : bool) (w : World) : World :=
  set_dom (Dom.mk b (Dom.inputAreaHidden (dom w))
                  (Dom.outputConsole (dom w)) (Dom.commandInput (dom w))) w.
Definition set_inputAreaHidden (b : bool) (w : World) : World :=
  set_dom (Dom.mk (Dom.startButtonHidden (dom w)) b
                  (Dom.outputConsole (dom w)) (Dom.commandInput (dom w))) w.

(** The lines [ls] appended to the console, nothing else touched. *)
Definition emit (ls : list Line) (w : World) : World :=
  set_outputConsole (outputConsole w ++ ls) w.

(** ** Computations over the world

    A run either finishes in a new world or gets stuck on a read the
    script's tables do not answer ([rooms[id]] or [items[id]] for an
    identifier that is no key of the table).  In the browser such a read
    gives [undefined] or an inherited member and the next field access
    throws a TypeError or carries a non-room, non-item value along; the
    model stops there. *)

Inductive outcome (A : Type) : Type :=
| Done (a : A) (w : World)
| Stuck.
Arguments Done {A} a w.
Arguments Stuck {A}.

Definition M (A : Type) : Type := World -> outcome A.

Definition ret {A} (a : A) : M A := fun w => Done a w.
Definition bind {A B} (m : M A) (k : A -> M B) : M B :=
  fun w => match m w with
           | Done a w' => k a w'
           | Stuck => Stuck
           end.
Definition stuck {A} : M A := fun _ => Stuck.
Definition read : M World := fun w => Done w w.
Definition modify (f : World -> World) : M unit := fun w => Done tt (f w).
Definition lift {A} (o : option A) : M A :=
  match o with
  | Some a => ret a
  | None => stuck
  end.

Declare Scope js_scope.
Delimit Scope js_scope with js.
Notation "x <- m ;; k" := (bind m (fun x => k))
  (at level 61, m at next level, right associativity) : js_scope.
Notation "m ;; k" := (bind m (fun _ => k))
  (at level 61, right associativity) : js_scope.
Local Open Scope js_scope.

(** ** Game data *)

Module Item.
Record t : Type := mk {
  name : string;
  description : string;
  canTake : bool;
  onExamine : option (M string)
}.
End Item.

Definition initialRooms : Rooms.t :=
  Rooms.mk
    (Room.mk "Dank Cell"
       "You are in a cold, stone cell. A single torch flickers on the wall, casting long shadows. The iron door to the north is barred shut. There is a pile of straw in the corner and a loose stone on the floor."
       [("north", "hallway")]
       ["stone"]
       [("north", "The door is barred from the other side.")])
    (Room.mk "Dim Hallway"
       "You stand in a narrow hallway. The cell door is to the south. To the east is a heavy wooden door with a small, rusty lock. To the west, the hallway ends in a pile of rubble."
       [("south", "cell"); ("east", "armory")]
       []
       [("east", "The door is locked.")])
    (Room.mk "Dusty Armory"
       "This was once an armory. Racks that held weapons are now empty, save for a single, gleaming sword lying on a stone pedestal."
       [("west", "hallway")]
       ["sword"]
       []).

Definition initialPlayer : Player.t := Player.mk "cell" [].

(** The state after the script has loaded; the page it loads into comes
    from the HTML document, which the script does not determine. *)
Definition initial (page : Dom.t) : World :=
  mkWorld false initialPlayer initialRooms page.

(** The script's assignments, as world updates. *)

(** [rooms.cell.items.push(id)]. *)
Definition pushCellItem (id : string) (w : World) : World :=
  set_rooms
    (Rooms.set_cell
       (Room.set_items (Room.items (Rooms.cell (rooms w)) ++ [id])
                       (Rooms.cell (rooms w)))
       (rooms w)) w.

(** [player.inventory.push(id)]. *)
Definition pushInventory (id : string) (w : World) : World :=
  set_inventory (inventory w ++ [id]) w.

(** [room.items = room.items.filter(i => i !== id)], where [room] is
    the current room's entry in the table. *)
Definition dropRoomItem (id : string) (w : World) : World :=
  set_rooms
    (Rooms.update (currentRoom w)
       (fun r => Room.set_items (Js.without id (Room.items r)) r)
       (rooms w)) w.

(** [delete rooms.hallway.blockedExits.east]. *)
Definition unblockHallwayEast (w : World) : World :=
  set_rooms
    (Rooms.set_hallway
       (Room.set_blockedExits
          (Js.delete (Room.blockedExits (Rooms.hallway (rooms w))) "east")
          (Rooms.hallway (rooms w)))
       (rooms w)) w.

(** [delete rooms.cell.blockedExits.north]. *)
Definition unblockCellNorth (w : World) : World :=
  set_rooms
    (Rooms.set_cell
       (Room.set_blockedExits
          (Js.delete (Room.blockedExits (Rooms.cell (rooms w))) "north")
          (Rooms.cell (rooms w)))
       (rooms w)) w.

Definition revealLine : string :=
  "You lift the stone and find a small, rusty key!".
Definition staticLine : string :=
  "It's just a stone. You already found the key that was under it.".

(** [items.stone.onExamine]. *)
Definition stone_onExamine : M string :=
  w <- read ;;
  if negb (Js.includes (inventory w) "key")
     && negb (Js.includes (Room.items (Rooms.cell (rooms w))) "key")
  then
    modify (pushCellItem "key") ;;
    ret revealLine
  else
    ret staticLine.

(** The entries of the [items] table. *)
Definition stone : Item.t :=
  Item.mk "Loose Stone"
    "A fist-sized stone. You notice a small, rusty key hidden in the cavity beneath it."
    false (Some stone_onExamine).

Definition key : Item.t :=
  Item.mk "Rusty Key"
    "A small, simple key. It looks like it might fit the lock on the armory door."
    true None.

Definition sword : Item.t :=
  Item.mk "Gleaming Sword"
    "A beautiful, sharp sword. It feels powerful in your hands. Perhaps you could break something with it?"
    true None.

(** [items[id]] for the table's own keys. *)
Definition items (id : string) : option Item.t :=
  if String.eqb id "stone" then Some stone
  else if String.eqb id "key" then Some key
  else if String.eqb id "sword" then Some sword
  else None.

(** ** Game functions

    The calls that leave no trace in the state ([commandInput.focus()],
    the console's scroll position) are left out. *)

(** [print(text, className)]: one more paragraph in the console. *)
Definition print (t : Js.value) (cls : string) : M unit :=
  modify (emit [mkLine t cls]).

Definition say (s : string) (cls : string) : M unit :=
  print (Js.VString s) cls.

(** [const room = rooms[player.currentRoom]], followed by a field read. *)
Definition theRoom : M Room.t :=
  w <- read ;; lift (Rooms.at_ (rooms w) (currentRoom w)).

Definition look : M unit :=
  room <- theRoom ;;
  say (Room.name room) "text-cyan-400 text-lg" ;;
  say (Room.description room) "".

Definition startGame : M unit :=
  modify (set_gameRunning true) ;;
  modify (set_startButtonHidden true) ;;
  modify (set_inputAreaHidden false) ;;
  modify (set_outputConsole []) ;;
  say "Executing DungeonEscape.java..." "text-yellow-400" ;;
  say "---" "" ;;
  look.

Definition move (direction : string) : M unit :=
  room <- theRoom ;;
  if Js.truthy (Js.get (Room.exits room) direction) then
    if Js.truthy (Js.get (Room.blockedExits room) direction) then
      print (Js.get (Room.blockedExits room) direction) "text-yellow-400"
    else
      match Js.get (Room.exits room) direction with
      | Js.VString dest => modify (set_currentRoom dest) ;; look
      | _ => stuck
      end
  else
    say "You can't go that way." "text-red-400".

Definition take (itemName : string) : M unit :=
  room <- theRoom ;;
  if Js.includes (Room.items room) itemName then
    item <- lift (items itemName) ;;
    if Item.canTake item then
      modify (pushInventory itemName) ;;
      modify (dropRoomItem itemName) ;;
      say ("You take the " ++ Item.name item ++ ".") ""
    else
      say "You can't take that." "text-red-400"
  else
    say "You can't take that." "text-red-400".

Definition examine (itemName : string) : M unit :=
  room <- theRoom ;;
  w <- read ;;
  if Js.includes (Room.items room) itemName
     || Js.includes (inventory w) itemName
  then
    item <- lift (items itemName) ;;
    say (Item.description item) "" ;;
    match Item.onExamine item with
    | Some effect =>
        result <- effect ;;
        if Js.truthy (Js.VString result) then say result "text-green-400"
        else ret tt
    | None => ret tt
    end
  else
    say "You don't see that here." "text-red-400".

(** The body of [player.inventory.forEach(...)]. *)
Fixpoint listInventory (held : list string) : M unit :=
  match held with
  | [] => ret tt
  | itemName :: rest =>
      item <- lift (items itemName) ;;
      say ("- " ++ Item.name item) "" ;;
      listInventory rest
  end.

Definition showInventory : M unit :=
  w <- read ;;
  if Nat.eqb (List.length (inventory w)) 0 then
    say "You are not carrying anything." ""
  else
    say "You are carrying:" "" ;;
    listInventory (inventory w).

Definition strictEq (x : option string) (s : string) : bool :=
  match x with
  | Some y => String.eqb y s
  | None => false
  end.

Definition use (command : string) : M unit :=
  let parts := Js.split command in
  let itemToUse := nth_error parts 0 in
  let target := nth_error parts 2 in
  w <- read ;;
  if negb (Js.includes_opt (inventory w) itemToUse) then
    say "You don't have that." "text-red-400"
  else if strictEq itemToUse "key" && strictEq target "door"
          && String.eqb (currentRoom w) "hallway" then
    modify unblockHallwayEast ;;
    say "The key fits! You unlock the armory door with a loud *click*." "text-green-400"
  else if strictEq itemToUse "sword" && strictEq target "door"
          && String.eqb (currentRoom w) "cell" then
    modify unblockCellNorth ;;
    say "You swing the sword with all your might and shatter the wooden bar on the other side of the door!" "text-green-400" ;;
    say "You have escaped the dungeon!" "text-yellow-400 font-bold text-lg" ;;
    modify (set_gameRunning false) ;;
    modify (set_inputAreaHidden true)
  else
    say "You can't use that like that." "text-red-400".

(** The [switch (verb)] of [processCommand]. *)
Definition dispatch (verb : option string) (noun : string) : M unit :=
  if strictEq verb "look" || strictEq verb "l" then look
  else if strictEq verb "go" || strictEq verb "move" then move noun
  else if strictEq verb "take" || strictEq verb "get" then take noun
  else if strictEq verb "examine" || strictEq verb "x" then examine noun
  else if strictEq verb "inventory" || strictEq verb "i" then showInventory
  else if strictEq verb "use" then use noun
  else say "I don't understand that command." "text-red-400".

Definition processCommand : M unit :=
  w <- read ;;
  let commandText := Js.toLowerCase (Js.trim (Dom.commandInput (dom w))) in
  if String.eqb commandText "" then ret tt
  else
    say ("> " ++ commandText) "text-gray-500" ;;
    modify (set_commandInput "") ;;
    let parts := Js.split commandText in
    let verb := nth_error parts 0 in
    let nounParts := tl parts in
    let noun := Js.join nounParts in
    dispatch verb noun.

(** ** The page's events

    The start button runs [startGame]; the submit button and the Enter
    key run [processCommand] on whatever the input field holds. *)

(** The player types [raw] into the input field and submits it. *)
Definition submit (raw : string) : M unit :=
  modify (set_commandInput raw) ;; processCommand.

(** The states the page can get into: the script loads, and then the
    player clicks the start button, edits the input field, or submits it,
    in any order (the listeners never look at [gameRunning] or at the
    [hidden] classes). *)
Inductive reachable : World -> Prop :=
| reach_load (page : Dom.t) : reachable (initial page)
| reach_start (w w' : World) :
    reachable w -> startGame w = Done tt w' -> reachable w'
| reach_type (w : World) (raw : string) :
    reachable w -> reachable (set_commandInput raw w)
| reach_submit (w w' : World) :
    reachable w -> processCommand w = Done tt w' -> reachable w'.

(** The world a run ends in. *)
Definition world_of {A} (o : outcome A) (default : World) : World :=
  match o with
  | Done _ w => w
  | Stuck => default
  end.

(** ** Well-formed worlds

    Only the [items] arrays, the [blockedExits] objects, the player and
    the page ever change.  [roomsOf] rebuilds the table from its mutable
    parts; [wf] lists the placements of the three items the script can
    produce and the two states of each blocked exit. *)

Definition roomsOf (cellItems armoryItems : list string)
    (cellBlocked hallwayBlocked : Js.obj) : Rooms.t :=
  Rooms.mk
    (Room.mk (Room.name (Rooms.cell initialRooms))
             (Room.description (Rooms.cell initialRooms))
             (Room.exits (Rooms.cell initialRooms))
             cellItems cellBlocked)
    (Room.mk (Room.name (Rooms.hallway initialRooms))
             (Room.description (Rooms.hallway initialRooms))
             (Room.exits (Rooms.hallway initialRooms))
             [] hallwayBlocked)
    (Room.mk (Room.name (Rooms.armory initialRooms))
             (Room.description (Rooms.armory initialRooms))
             (Room.exits (Rooms.armory initialRooms))
             armoryItems []).

Definition roomIds : list string := ["cell"; "hallway"; "armory"].

(** Cell items, armory items and inventory, together. *)
Definition placements : list (list string * list string * list string) :=
  [ (["stone"], ["sword"], []);
    (["stone"; "key"], ["sword"], []);
    (["stone"], ["sword"], ["key"]);
    (["stone"], [], ["sword"]);
    (["stone"; "key"], [], ["sword"]);
    (["stone"], [], ["key"; "sword"]);
    (["stone"], [], ["sword"; "key"]) ].

Definition wf (w : World) : Prop :=
  exists ci ai cb hb,
    rooms w = roomsOf ci ai cb hb
    /\ In (ci, ai, inventory w) placements
    /\ In cb [Room.blockedExits (Rooms.cell initialRooms); []]
    /\ In hb [Room.blockedExits (Rooms.hallway initialRooms); []]
    /\ In (currentRoom w) roomIds.

(** All places an item identifier can be: the three item arrays and the
    inventory. *)
Definition locations (w : World) : list string :=
  Room.items (Rooms.cell (rooms w)) ++ Room.items (Rooms.hallway (rooms w))
  ++ Room.items (Rooms.armory (rooms w)) ++ inventory w.

(** How many times an identifier occurs over all item arrays and the
    inventory. *)
Definition occurrences (w : World) (id : string) : nat :=
  count_occ string_dec (locations w) id.

Definition singlePlace (w : World) : Prop :=
  forall id, occurrences w id <= 1.

(** ** The lines the script prints *)

Definition lookLines (room : Room.t) : list Line :=
  [ mkLine (Js.VString (Room.name room)) "text-cyan-400 text-lg";
    mkLine (Js.VString (Room.description room)) "" ].

Definition cantGo : Line := mkLine (Js.VString "You can't go that way.") "text-red-400".
Definition cantTake : Line := mkLine (Js.VString "You can't take that.") "text-red-400".
Definition dontSee : Line := mkLine (Js.VString "You don't see that here.") "text-red-400".
Definition dontHave : Line := mkLine (Js.VString "You don't have that.") "text-red-400".
Definition cantUse : Line := mkLine (Js.VString "You can't use that like that.") "text-red-400".

Definition tookLine (item : Item.t) : Line :=
  mkLine (Js.VString ("You take the " ++ Item.name item ++ ".")) "".

Definition descriptionLine (item : Item.t) : Line :=
  mkLine (Js.VString (Item.description item)) "".

Definition greenLine (s : string) : Line := mkLine (Js.VString s) "text-green-400".

Definition unlockLine : Line :=
  mkLine (Js.VString "The key fits! You unlock the armory door with a loud *click*.")
         "text-green-400".
Definition shatterLine : Line :=
  mkLine (Js.VString "You swing the sword with all your might and shatter the wooden bar on the other side of the door!")
         "text-green-400".
Definition winLine : Line :=
  mkLine (Js.VString "You have escaped the dungeon!")
         "text-yellow-400 font-bold text-lg".

Definition bannerLines : list Line :=
  [ mkLine (Js.VString "Executing DungeonEscape.java...") "text-yellow-400";
    mkLine (Js.VString "---") "" ].

(** The text the script works on: the field's value, trimmed and
    lower-cased. *)
Definition commandText (w : World) : string :=
  Js.toLowerCase (Js.trim (Dom.commandInput (dom w))).

Definition echoLine (w : World) : Line :=
  mkLine (Js.VString ("> " ++ commandText w)) "text-gray-500".

(** A command was narrated: the console grew by at least one line. *)
Definition narrated (w w' : World) : Prop :=
  exists l ls, outputConsole w' = outputConsole w ++ l :: ls.

(** ** The branches of use *)

(** The three branches of [use], on the two destructured tokens. *)
Definition keyOnDoor (w : World) (itemToUse target : option string) : bool :=
  strictEq itemToUse "key" && strictEq target "door"
  && String.eqb (currentRoom w) "hallway".

Definition swordOnDoor (w : World) (itemToUse target : option string) : bool :=
  strictEq itemToUse "sword" && strictEq target "door"
  && String.eqb (currentRoom w) "cell".

Definition escaped (w : World) : World :=
  set_inputAreaHidden true
    (set_gameRunning false (emit [shatterLine; winLine] (unblockCellNorth w))).

(** ** One command, one mutation

    Whatever a command prints, it changes the world model in at most
    one of six ways. *)

(** The key has come out from under the stone. *)
Definition keyFound (w : World) : bool :=
  Js.includes (inventory w) "key"
  || Js.includes (Room.items (Rooms.cell (rooms w))) "key".

(** The noun names an item that lies in the current room and may be
    taken. *)
Definition takeable (w : World) (noun : string) : bool :=
  match Rooms.at_ (rooms w) (currentRoom w), items noun with
  | Some room, Some item =>
      Js.includes (Room.items room) noun && Item.canTake item
  | _, _ => false
  end.

(** The world model after the winning blow, console aside. *)
Definition sessionOver (w : World) : World :=
  set_inputAreaHidden true (set_gameRunning false (unblockCellNorth w)).

Inductive mutation (verb : option string) (noun : string) (w : World)
  : World -> Prop :=
| mut_none : mutation verb noun w w
| mut_move room dest :
    strictEq verb "go" || strictEq verb "move" = true ->
    Rooms.at_ (rooms w) (currentRoom w) = Some room ->
    Js.get (Room.exits room) noun = Js.VString dest ->
    Js.truthy (Js.VString dest) = true ->
    Js.truthy (Js.get (Room.blockedExits room) noun) = false ->
    mutation verb noun w (set_currentRoom dest w)
| mut_take :
    strictEq verb "take" || strictEq verb "get" = true ->
    takeable w noun = true ->
    mutation verb noun w (dropRoomItem noun (pushInventory noun w))
| mut_reveal :
    strictEq verb "examine" || strictEq verb "x" = true ->
    noun = "stone" -> currentRoom w = "cell" -> keyFound w = false ->
    mutation verb noun w (pushCellItem "key" w)
| mut_unlock :
    strictEq verb "use" = true ->
    Js.includes_opt (inventory w) (nth_error (Js.split noun) 0) = true ->
    keyOnDoor w (nth_error (Js.split noun) 0) (nth_error (Js.split noun) 2) = true ->
    mutation verb noun w (unblockHallwayEast w)
| mut_escape :
    strictEq verb "use" = true ->
    Js.includes_opt (inventory w) (nth_error (Js.split noun) 0) = true ->
    swordOnDoor w (nth_error (Js.split noun) 0) (nth_error (Js.split noun) 2) = true ->
    mutation verb noun w (sessionOver w).

(** [m] carries out the command [verb noun]: from a well-formed world it
    finishes, having made one mutation and printed at least one line. *)
Definition performs (m : M unit) (verb : option string) (noun : string) : Prop :=
  forall w, wf w ->
    exists w1 l ls,
      mutation verb noun w w1 /\ m w = Done tt (emit (l :: ls) w1).

(** A computation that, from a well-formed world, always finishes in a
    well-formed world and leaves at least one line on the console. *)
Definition safe (m : M unit) : Prop :=
  forall w, wf w -> exists w', m w = Done tt w' /\ wf w' /\ narrated w w'.

(** ** The command parser *)

(** The first lines of [processCommand]: nothing for blank input,
    otherwise the destructured [verb] and the rejoined [noun]. *)
Definition parse (raw : string) : option (option string * string) :=
  let commandText := Js.toLowerCase (Js.trim raw) in
  if String.eqb commandText "" then None
  else Some (nth_error (Js.split commandText) 0,
             Js.join (tl (Js.split commandText))).

(** The text before the first space, and the text after it. *)
Fixpoint beforeSpace (s : string) : string :=
  match s with
  | EmptyString => EmptyString
  | String c s' =>
      if Ascii.eqb c Js.space then EmptyString else String c (beforeSpace s')
  end.

Fixpoint afterSpace (s : string) : string :=
  match s with
  | EmptyString => EmptyString
  | String c s' => if Ascii.eqb c Js.space then s' else afterSpace s'
  end.

(** The parser as the specification words it: the whitespace-delimited
    tokens of the input, the first one the verb, the others joined by
    single spaces the noun, all lower-cased. *)
Fixpoint tokens (s : string) : list string :=
  match s with
  | EmptyString => []
  | String c s' =>
      if Js.isWhiteSpace c then tokens s'
      else
        match s' with
        | EmptyString => [String c EmptyString]
        | String d _ =>
            if Js.isWhiteSpace d then String c EmptyString :: tokens s'
            else match tokens s' with
                 | t :: ts => String c t :: ts
                 | [] => [String c EmptyString]
                 end
        end
  end.

Definition specParse (raw : string) : option (option string * string) :=
  match tokens raw with
  | [] => None
  | v :: rest => Some (Some (Js.toLowerCase v), Js.toLowerCase (Js.join rest))
  end.

(** Every whitespace character is one space, with a word after it. *)
Fixpoint singleSpaced (s : string) : bool :=
  match s with
  | EmptyString => true
  | String c s' =>
      (if Js.isWhiteSpace c then
         Ascii.eqb c Js.space
         && match s' with
            | EmptyString => false
            | String d _ => negb (Js.isWhiteSpace d)
            end
       else true)
      && singleSpaced s'
  end.

(** ** The session flag *)

(** Two runs ended the same way, up to [gameRunning]. *)
Definition sameButFlag (o1 o2 : outcome unit) : Prop :=
  match o1, o2 with
  | Done _ w1, Done _ w2 =>
      player w1 = player w2 /\ rooms w1 = rooms w2 /\ dom w1 = dom w2
  | Stuck, Stuck => True
  | _, _ => False
  end.

(** [m] never reads [gameRunning]. *)
Definition flagBlind (m : M unit) : Prop :=
  forall w b, sameButFlag (m w) (m (set_gameRunning b w)).

(** ** Further notions used in the statements *)

Definition notUnderstood : Line :=
  mkLine (Js.VString "I don't understand that command.") "text-red-400".

(** The cases of the [switch] in [processCommand]. *)
Definition knownVerbs : list string :=
  ["look"; "l"; "go"; "move"; "take"; "get"; "examine"; "x";
   "inventory"; "i"; "use"].

(** The noun names something in the current room or in the inventory. *)
Definition visible (w : World) (noun : string) : bool :=
  match Rooms.at_ (rooms w) (currentRoom w) with
  | Some room =>
      Js.includes (Room.items room) noun || Js.includes (inventory w) noun
  | None => false
  end.

(** The line [showInventory] prints for a held item. *)
Definition heldLine (id : string) : Line :=
  mkLine (Js.VString ("- " ++ match items id with
                             | Some item => Item.name item
                             | None => ""
                             end)) "".

Definition inventoryLines (held : list string) : list Line :=
  match held with
  | [] => [mkLine (Js.VString "You are not carrying anything.") ""]
  | _ => mkLine (Js.VString "You are carrying:") "" :: map heldLine held
  end.

(** [id] is an own key of the [rooms] table, naming [room]. *)
Definition roomAt (w : World) (id : string) (room : Room.t) : Prop :=
  Rooms.at_ (rooms w) id = Some room.

(** [r'] is [r] with, at most, other items and fewer blocked exits. *)
Definition roomKept (r r' : Room.t) : Prop :=
  Room.name r' = Room.name r
  /\ Room.description r' = Room.description r
  /\ Room.exits r' = Room.exits r
  /\ forall direction message,
       Js.own (Room.blockedExits r') direction = Some message ->
       Js.own (Room.blockedExits r) direction = Some message.

Definition layoutKept (rs rs' : Rooms.t) : Prop :=
  roomKept (Rooms.cell rs) (Rooms.cell rs')
  /\ roomKept (Rooms.hallway rs) (Rooms.hallway rs')
  /\ roomKept (Rooms.armory rs) (Rooms.armory rs').

(** [m], whenever it finishes, leaves the layout as it was. *)
Definition keepsLayout (m : M unit) : Prop :=
  forall w w', m w = Done tt w' -> layoutKept (rooms w) (rooms w').

(** What [use] does when neither rule can apply: the target is
    undefined, and the answer is the generic failure when the first
    piece is held and "You don't have that." otherwise. *)
Definition noRuleApplies (w : World) (command : string) : Prop :=
  nth_error (Js.split command) 2 = None
  /\ use command w =
       Done tt
         (emit [if Js.includes_opt (inventory w) (nth_error (Js.split command) 0)
                then cantUse else dontHave] w).

(** ** Worlds for examples *)

Definition blankPage : Dom.t := Dom.mk false true [] "".

(** A world for examples: in the hallway, holding the key. *)
Definition inHallwayWithKey : World :=
  mkWorld true (Player.mk "hallway" ["key"])
    (roomsOf ["stone"] ["sword"]
       (Room.blockedExits (Rooms.cell initialRooms))
       (Room.blockedExits (Rooms.hallway initialRooms)))
    blankPage.

(** In the cell, holding key and sword. *)
Definition inCellWithSword : World :=
  mkWorld true (Player.mk "cell" ["key"; "sword"])
    (roomsOf ["stone"] []
       (Room.blockedExits (Rooms.cell initialRooms)) [])
    blankPage.

(** The key has been revealed and lies in the cell. *)
Definition keyRevealed : World :=
  mkWorld true (Player.mk "cell" [])
    (roomsOf ["stone"; "key"] ["sword"]
       (Room.blockedExits (Rooms.cell initialRooms))
       (Room.blockedExits (Rooms.hallway initialRooms)))
    blankPage.

(** The winning command typed into the field, sword in hand. *)
Definition aboutToEscape : World :=
  set_commandInput "Use sword on door" inCellWithSword.

(** The page after "x stone" has been submitted once. *)
Definition stoneExamined : World :=
  world_of (submit "x stone" (initial blankPage)) (initial blankPage).

(** A play-through given up with the key in hand: start, examine the
    stone, take the key. *)
Definition started : World :=
  Eval vm_compute in world_of (startGame (initial blankPage)) (initial blankPage).
Definition keySeen : World :=
  Eval vm_compute in world_of (submit "examine stone" started) started.
Definition abandoned : World :=
  Eval vm_compute in world_of (submit "take key" keySeen) keySeen.

(** ** Proof tools *)

(** Decide string tests: closed ones by evaluation, open ones by cases. *)
Ltac string_cases :=
  repeat match goal with
  | |- context [String.eqb ?a ?b] =>
      let v := eval cbv in (String.eqb a b) in
      lazymatch v with
      | true => change (String.eqb a b) with true
      | false => change (String.eqb a b) with false
      | _ => destruct (String.eqb_spec a b); subst
      end; cbv -[String.eqb app Js.inherits wf narrated]
  | |- context [Js.inherits ?k] =>
      let v := eval cbv in (Js.inherits k) in
      lazymatch v with
      | true => change (Js.inherits k) with true
      | false => change (Js.inherits k) with false
      | _ => let E := fresh "Einh" in destruct (Js.inherits k) eqn:E
      end; cbv -[String.eqb app Js.inherits wf narrated]
  end.

(** Evaluate the goal, splitting on every test of an unknown string. *)
Ltac run := cbv -[String.eqb app Js.inherits wf narrated]; string_cases.

(** Open a well-formedness hypothesis: the world becomes a record whose
    room table is a [roomsOf]; [cases_of] then enumerates the part of the
    state a proof depends on. *)
Ltac wf_open H :=
  let ci := fresh "ci" in let ai := fresh "ai" in
  let cb := fresh "cb" in let hb := fresh "hb" in
  let Hr := fresh "Hr" in
  destruct H as (ci & ai & cb & hb & Hr & Hp & Hc & Hh & Hl);
  match type of Hr with
  | rooms ?w = _ =>
      destruct w as [?g [?loc ?inv] ?rs ?d];
      cbn [rooms player inventory currentRoom Player.inventory
           Player.currentRoom] in Hr, Hp, Hl
  end;
  subst.

Ltac cases_of H :=
  cbn in H;
  repeat match type of H with
  | _ \/ _ => destruct H as [H | H]
  end;
  try (exfalso; exact H);
  try (inversion H; clear H);
  subst.

Ltac wf_done :=
  eexists _, _, _, _; cbn;
  repeat split; try reflexivity; cbn; auto 12.

Ltac no_mutation := eexists _, _, _; split; [apply mut_none | reflexivity].

(** Unfold a function body on both worlds and split on every test;
    the tests read the same on both sides. *)
Ltac blind_norm :=
  cbn [lift]; unfold ret, stuck, currentRoom, inventory; cbv beta iota;
  cbn [player rooms dom set_gameRunning]; cbv beta iota.

Ltac blind :=
  unfold theRoom, bind, read, say, print, modify; blind_norm;
  repeat (match goal with
          | |- context [if ?x then _ else _] => destruct x eqn:?
          | |- context [lift ?o] => destruct o eqn:?
          end; blind_norm);
  try (cbn; auto; fail).

(** * Properties *)

(** ** What each function computes *)

Lemma includes_In xs x : Js.includes xs x = true <-> In x xs.
Proof.
  induction xs as [|y ys IH]; cbn.
  - split; [discriminate | tauto].
  - rewrite orb_true_iff, IH, String.eqb_eq. tauto.
Qed.

Lemma includes_not_In xs x : Js.includes xs x = false <-> ~ In x xs.
Proof.
  rewrite <- includes_In. destruct (Js.includes xs x); split; congruence.
Qed.

Lemma emit_emit l1 l2 w : emit l2 (emit l1 w) = emit (l1 ++ l2) w.
Proof.
  destruct w as [g p r [sb ia c v]]; unfold emit, set_outputConsole, set_dom,
    outputConsole; cbn. now rewrite <- app_assoc.
Qed.

Lemma look_eq w room :
  Rooms.at_ (rooms w) (currentRoom w) = Some room ->
  look w = Done tt (emit (lookLines room) w).
Proof.
  intros H. unfold look, theRoom, bind, read, lift. rewrite H.
  unfold ret, say, print, modify. now rewrite emit_emit.
Qed.

Lemma move_eq w room direction :
  Rooms.at_ (rooms w) (currentRoom w) = Some room ->
  move direction w =
    if Js.truthy (Js.get (Room.exits room) direction) then
      if Js.truthy (Js.get (Room.blockedExits room) direction) then
        Done tt (emit [mkLine (Js.get (Room.blockedExits room) direction)
                              "text-yellow-400"] w)
      else
        match Js.get (Room.exits room) direction with
        | Js.VString dest => look (set_currentRoom dest w)
        | _ => Stuck
        end
    else Done tt (emit [cantGo] w).
Proof.
  intros H. unfold move, theRoom, bind, read, lift. rewrite H. cbn.
  destruct (Js.truthy (Js.get (Room.exits room) direction)); [|reflexivity].
  destruct (Js.truthy (Js.get (Room.blockedExits room) direction)); [reflexivity|].
  destruct (Js.get (Room.exits room) direction); reflexivity.
Qed.

Lemma take_eq w room itemName :
  Rooms.at_ (rooms w) (currentRoom w) = Some room ->
  take itemName w =
    if Js.includes (Room.items room) itemName then
      match items itemName with
      | Some item =>
          if Item.canTake item then
            Done tt (emit [tookLine item]
                       (dropRoomItem itemName (pushInventory itemName w)))
          else Done tt (emit [cantTake] w)
      | None => Stuck
      end
    else Done tt (emit [cantTake] w).
Proof.
  intros H. unfold take, theRoom, bind, read, lift. rewrite H. cbn.
  destruct (Js.includes (Room.items room) itemName); [|reflexivity].
  destruct (items itemName) as [item|]; [|reflexivity]. cbn.
  destruct (Item.canTake item); reflexivity.
Qed.

Lemma examine_eq w room itemName :
  Rooms.at_ (rooms w) (currentRoom w) = Some room ->
  examine itemName w =
    if Js.includes (Room.items room) itemName
       || Js.includes (inventory w) itemName
    then
      match items itemName with
      | Some item =>
          match Item.onExamine item with
          | Some effect =>
              match effect (emit [descriptionLine item] w) with
              | Done result w' =>
                  if Js.truthy (Js.VString result)
                  then Done tt (emit [mkLine (Js.VString result) "text-green-400"] w')
                  else Done tt w'
              | Stuck => Stuck
              end
          | None => Done tt (emit [descriptionLine item] w)
          end
      | None => Stuck
      end
    else Done tt (emit [dontSee] w).
Proof.
  intros H. unfold examine, theRoom, bind, read, lift. rewrite H. cbn.
  destruct (Js.includes (Room.items room) itemName
            || Js.includes (inventory w) itemName); [|reflexivity].
  destruct (items itemName) as [item|]; [|reflexivity]. cbn.
  destruct (Item.onExamine item) as [effect|]; [|reflexivity].
  destruct (effect _) as [result w'|]; [|reflexivity].
  cbn. destruct (negb (String.eqb result "")); reflexivity.
Qed.

Lemma stone_onExamine_eq w :
  stone_onExamine w =
    if negb (Js.includes (inventory w) "key")
       && negb (Js.includes (Room.items (Rooms.cell (rooms w))) "key")
    then Done revealLine (pushCellItem "key" w)
    else Done staticLine w.
Proof.
  unfold stone_onExamine, bind, read. cbn.
  destruct (negb _ && negb _); reflexivity.
Qed.

Lemma use_eq w command :
  let itemToUse := nth_error (Js.split command) 0 in
  let target := nth_error (Js.split command) 2 in
  use command w =
    Done tt
      (if negb (Js.includes_opt (inventory w) itemToUse) then emit [dontHave] w
       else if keyOnDoor w itemToUse target
            then emit [unlockLine] (unblockHallwayEast w)
       else if swordOnDoor w itemToUse target then escaped w
       else emit [cantUse] w).
Proof.
  cbv zeta. unfold use, keyOnDoor, swordOnDoor, bind, read. cbn.
  destruct (negb _); [reflexivity|].
  destruct (_ && _ && String.eqb (currentRoom w) "hallway"); [reflexivity|].
  destruct (_ && _ && String.eqb (currentRoom w) "cell"); [|reflexivity].
  cbn. unfold escaped. now rewrite emit_emit.
Qed.

(** ** The invariant *)

Lemma initial_wf page : wf (initial page).
Proof. wf_done. Qed.

(** [wf] looks at the room table and the player only. *)
Lemma wf_ext w w' :
  rooms w' = rooms w -> player w' = player w -> wf w -> wf w'.
Proof.
  intros Hr Hpl (ci & ai & cb & hb & H). exists ci, ai, cb, hb.
  unfold inventory, currentRoom in *. now rewrite Hr, Hpl.
Qed.

Lemma wf_emit ls w : wf w -> wf (emit ls w).
Proof. now apply wf_ext. Qed.

Lemma wf_room w :
  wf w -> exists room, Rooms.at_ (rooms w) (currentRoom w) = Some room.
Proof.
  intros H. wf_open H. cases_of Hl; eexists; reflexivity.
Qed.

Lemma wf_move w room direction :
  wf w ->
  Rooms.at_ (rooms w) (currentRoom w) = Some room ->
  Js.truthy (Js.get (Room.exits room) direction) = true ->
  Js.truthy (Js.get (Room.blockedExits room) direction) = false ->
  exists dest,
    Js.get (Room.exits room) direction = Js.VString dest
    /\ wf (set_currentRoom dest w).
Proof.
  intros H. wf_open H.
  cases_of Hl; cbn; intros [= <-]; cases_of Hc; cases_of Hh;
    revert Hp; run; intros Hp; try discriminate;
    intros; eexists; (split; [reflexivity | wf_done]).
Qed.

Lemma wf_take w room itemName :
  wf w ->
  Rooms.at_ (rooms w) (currentRoom w) = Some room ->
  Js.includes (Room.items room) itemName = true ->
  exists item,
    items itemName = Some item
    /\ (Item.canTake item = true ->
        wf (dropRoomItem itemName (pushInventory itemName w))).
Proof.
  intros H Hat Hin. apply includes_In in Hin. wf_open H.
  cases_of Hl; injection Hat as <-; cases_of Hp; cases_of Hin;
    eexists; (split; [reflexivity | try discriminate; intros; wf_done]).
Qed.

Lemma wf_examine w room itemName :
  wf w ->
  Rooms.at_ (rooms w) (currentRoom w) = Some room ->
  Js.includes (Room.items room) itemName || Js.includes (inventory w) itemName
    = true ->
  exists item,
    items itemName = Some item
    /\ (Item.onExamine item = None
        \/ itemName = "stone" /\ Item.onExamine item = Some stone_onExamine).
Proof.
  intros H Hat Hin. apply orb_true_iff in Hin. rewrite !includes_In in Hin.
  wf_open H.
  cases_of Hl; injection Hat as <-; cases_of Hp;
    destruct Hin as [Hin | Hin]; cases_of Hin;
    eexists; (split; [reflexivity | auto]).
Qed.

Lemma wf_unblockHallwayEast w : wf w -> wf (unblockHallwayEast w).
Proof. intros H. wf_open H. cases_of Hh; wf_done. Qed.

Lemma wf_unblockCellNorth w : wf w -> wf (unblockCellNorth w).
Proof. intros H. wf_open H. cases_of Hc; wf_done. Qed.

Lemma showInventory_wf w :
  wf w -> exists l ls, showInventory w = Done tt (emit (l :: ls) w).
Proof.
  intros H. wf_open H. destruct d as [sb ia c v].
  cases_of Hp.
  all: eexists _, _; cbv -[app]; rewrite <- ?app_assoc; cbn [app]; reflexivity.
Qed.

(** ** One command, one mutation *)

Lemma wf_pushCellItem w :
  wf w -> keyFound w = false -> wf (pushCellItem "key" w).
Proof.
  intros H. wf_open H. cases_of Hp; cbn; try discriminate; intros _; wf_done.
Qed.

Lemma mutation_wf verb noun w w1 : wf w -> mutation verb noun w w1 -> wf w1.
Proof.
  intros H [ | room dest _ Hat Hget Ht Hb | _ Htake | _ _ _ Hk | _ _ _ | _ _ _ ].
  - exact H.
  - rewrite <- Hget in Ht.
    destruct (wf_move w room noun H Hat Ht Hb) as (dest' & Hget' & H').
    congruence.
  - unfold takeable in Htake.
    destruct (Rooms.at_ _ _) as [room|] eqn:Hat; [|discriminate].
    destruct (items noun) as [item|] eqn:Hitem; [|discriminate].
    apply andb_true_iff in Htake as [Hin Hcan].
    destruct (wf_take w room noun H Hat Hin) as (item' & Hitem' & H').
    apply H'. congruence.
  - now apply wf_pushCellItem.
  - now apply wf_unblockHallwayEast.
  - apply (wf_ext (unblockCellNorth w)); [reflexivity.. |].
    now apply wf_unblockCellNorth.
Qed.

Lemma say_performs s cls verb noun : performs (say s cls) verb noun.
Proof. intros w _. no_mutation. Qed.

Lemma look_performs verb noun : performs look verb noun.
Proof.
  intros w H. destruct (wf_room w H) as [room Hat].
  rewrite (look_eq w room Hat). no_mutation.
Qed.

Lemma move_performs verb direction :
  strictEq verb "go" || strictEq verb "move" = true ->
  performs (move direction) verb direction.
Proof.
  intros Hv w H. destruct (wf_room w H) as [room Hat].
  rewrite (move_eq w room direction Hat).
  destruct (Js.truthy (Js.get (Room.exits room) direction)) eqn:He;
    [|no_mutation].
  destruct (Js.truthy (Js.get (Room.blockedExits room) direction)) eqn:Hb;
    [no_mutation|].
  destruct (wf_move w room direction H Hat He Hb) as (dest & Hget & H').
  rewrite Hget in *.
  destruct (wf_room _ H') as [room' Hat'].
  rewrite (look_eq _ room' Hat').
  eexists _, _, _; split; [|reflexivity]. now apply (mut_move _ _ _ room).
Qed.

Lemma take_performs verb itemName :
  strictEq verb "take" || strictEq verb "get" = true ->
  performs (take itemName) verb itemName.
Proof.
  intros Hv w H. destruct (wf_room w H) as [room Hat].
  rewrite (take_eq w room itemName Hat).
  destruct (Js.includes (Room.items room) itemName) eqn:Hin; [|no_mutation].
  destruct (wf_take w room itemName H Hat Hin) as (item & Hitem & _).
  rewrite Hitem.
  destruct (Item.canTake item) eqn:Hcan; [|no_mutation].
  eexists _, _, _; split; [|reflexivity]. apply mut_take; [exact Hv|].
  unfold takeable. now rewrite Hat, Hitem, Hin, Hcan.
Qed.

Lemma wf_stone_in_cell w room :
  wf w -> Rooms.at_ (rooms w) (currentRoom w) = Some room ->
  Js.includes (Room.items room) "stone" || Js.includes (inventory w) "stone"
    = true ->
  currentRoom w = "cell".
Proof.
  intros H Hat. wf_open H.
  cases_of Hl; injection Hat as <-; [reflexivity | ..];
    cases_of Hp; cbn; discriminate.
Qed.

Lemma examine_performs verb itemName :
  strictEq verb "examine" || strictEq verb "x" = true ->
  performs (examine itemName) verb itemName.
Proof.
  intros Hv w H. destruct (wf_room w H) as [room Hat].
  rewrite (examine_eq w room itemName Hat).
  destruct (Js.includes (Room.items room) itemName
            || Js.includes (inventory w) itemName) eqn:Hin; [|no_mutation].
  destruct (wf_examine w room itemName H Hat Hin) as (item & -> & [-> | [-> ->]]);
    [no_mutation|].
  rewrite stone_onExamine_eq.
  change (inventory (emit _ w)) with (inventory w).
  change (rooms (emit _ w)) with (rooms w).
  destruct (negb _ && negb _) eqn:Hk.
  - cbn [Js.truthy]. change (negb (String.eqb revealLine "")) with true.
    cbv iota.
    change (pushCellItem "key" (emit [descriptionLine item] w))
      with (emit [descriptionLine item] (pushCellItem "key" w)).
    rewrite emit_emit.
    eexists _, _, _; split; [|reflexivity].
    apply mut_reveal; eauto using wf_stone_in_cell.
    unfold keyFound. now rewrite <- negb_orb, negb_true_iff in Hk.
  - cbn [Js.truthy]. change (negb (String.eqb staticLine "")) with true.
    cbv iota. rewrite emit_emit. no_mutation.
Qed.

Lemma showInventory_performs verb noun : performs showInventory verb noun.
Proof.
  intros w H. destruct (showInventory_wf w H) as (l & ls & ->). no_mutation.
Qed.

Lemma use_performs verb command :
  strictEq verb "use" = true -> performs (use command) verb command.
Proof.
  intros Hv w H. rewrite use_eq.
  destruct (Js.includes_opt _ _) eqn:Hheld; cbn [negb]; [|no_mutation].
  destruct (keyOnDoor _ _ _) eqn:Hk.
  { eexists _, _, _; split; [|reflexivity]. now apply mut_unlock. }
  destruct (swordOnDoor _ _ _) eqn:Hs; [|no_mutation].
  exists (sessionOver w), shatterLine, [winLine]. split; [|reflexivity].
  now apply mut_escape.
Qed.

Lemma dispatch_performs verb noun : performs (dispatch verb noun) verb noun.
Proof.
  unfold dispatch.
  destruct (strictEq verb "look" || strictEq verb "l");
    [apply look_performs|].
  destruct (strictEq verb "go" || strictEq verb "move") eqn:?;
    [now apply move_performs|].
  destruct (strictEq verb "take" || strictEq verb "get") eqn:?;
    [now apply take_performs|].
  destruct (strictEq verb "examine" || strictEq verb "x") eqn:?;
    [now apply examine_performs|].
  destruct (strictEq verb "inventory" || strictEq verb "i");
    [apply showInventory_performs|].
  destruct (strictEq verb "use") eqn:?; [now apply use_performs|].
  apply say_performs.
Qed.

Lemma mutation_console verb noun w w1 :
  mutation verb noun w w1 -> outputConsole w1 = outputConsole w.
Proof. now intros []. Qed.

Lemma dispatch_safe verb noun : safe (dispatch verb noun).
Proof.
  intros w H.
  destruct (dispatch_performs verb noun w H) as (w1 & l & ls & Hm & ->).
  eexists; split; [reflexivity|]. split.
  - eapply wf_emit, mutation_wf; eauto.
  - exists l, ls. cbn. change (Dom.outputConsole (dom w1)) with (outputConsole w1).
    now rewrite (mutation_console _ _ _ _ Hm).
Qed.

Lemma processCommand_eq w :
  processCommand w =
    if String.eqb (commandText w) "" then Done tt w
    else dispatch (nth_error (Js.split (commandText w)) 0)
                  (Js.join (tl (Js.split (commandText w))))
                  (set_commandInput "" (emit [echoLine w] w)).
Proof.
  unfold processCommand, bind, read. fold (commandText w).
  destruct (String.eqb (commandText w) ""); reflexivity.
Qed.

Lemma processCommand_wf w :
  wf w -> exists w', processCommand w = Done tt w' /\ wf w'.
Proof.
  intros H. rewrite processCommand_eq.
  destruct (String.eqb (commandText w) ""); [now exists w|].
  destruct (dispatch_safe (nth_error (Js.split (commandText w)) 0)
              (Js.join (tl (Js.split (commandText w))))
              (set_commandInput "" (emit [echoLine w] w)))
    as (w' & Hd & H' & _).
  - now apply (wf_ext w).
  - now exists w'.
Qed.

Lemma startGame_eq w room :
  Rooms.at_ (rooms w) (currentRoom w) = Some room ->
  startGame w =
    Done tt
      (emit (lookLines room)
         (set_outputConsole
            [ mkLine (Js.VString "Executing DungeonEscape.java...") "text-yellow-400";
              mkLine (Js.VString "---") "" ]
            (set_inputAreaHidden false
               (set_startButtonHidden true (set_gameRunning true w))))).
Proof.
  intros H. unfold startGame, bind, say, print, modify. cbv beta iota.
  erewrite look_eq by exact H. reflexivity.
Qed.

Lemma startGame_wf w : wf w -> exists w', startGame w = Done tt w' /\ wf w'.
Proof.
  intros H. destruct (wf_room w H) as [room Hat].
  rewrite (startGame_eq w room Hat). eexists; split; [reflexivity|].
  now apply (wf_ext w).
Qed.

Lemma reachable_wf w : reachable w -> wf w.
Proof.
  induction 1 as [page | w w' _ IH Hs | w raw _ IH | w w' _ IH Hs].
  - apply initial_wf.
  - destruct (startGame_wf w IH) as (w'' & Hs' & H'). congruence.
  - now apply (wf_ext w).
  - destruct (processCommand_wf w IH) as (w'' & Hs' & H'). congruence.
Qed.

(** ** Command handling never faults *)

Lemma toLowerCase_empty s : Js.toLowerCase s = "" <-> s = "".
Proof. destruct s; cbn; split; congruence. Qed.

Lemma submit_eq raw w : submit raw w = processCommand (set_commandInput raw w).
Proof. reflexivity. Qed.

(** C3. Whatever the player submits, in any state the page can be in,
    [processCommand] finishes without a fault: blank input (empty or
    only whitespace) does nothing at all, and any other input is echoed
    and then answered by at least one more line. *)
Theorem processCommand_never_faults (w : World) (raw : string) :
  reachable w ->
  exists w',
    submit raw w = Done tt w'
    /\ (Js.trim raw = "" -> w' = set_commandInput raw w)
    /\ (Js.trim raw <> "" ->
        exists l ls,
          outputConsole w' =
            outputConsole w
            ++ mkLine (Js.VString ("> " ++ Js.toLowerCase (Js.trim raw)))
                      "text-gray-500"
               :: l :: ls).
Proof.
  intros Hr. apply reachable_wf in Hr.
  rewrite submit_eq, processCommand_eq.
  set (w1 := set_commandInput raw w).
  assert (Ht : commandText w1 = Js.toLowerCase (Js.trim raw)) by reflexivity.
  destruct (String.eqb_spec (commandText w1) "") as [He | He].
  - exists w1. rewrite Ht, toLowerCase_empty in He.
    split; [reflexivity|]. split; [reflexivity | congruence].
  - destruct (dispatch_safe (nth_error (Js.split (commandText w1)) 0)
                (Js.join (tl (Js.split (commandText w1))))
                (set_commandInput "" (emit [echoLine w1] w1)))
      as (w' & Hd & _ & l & ls & Hn).
    + now apply (wf_ext w).
    + exists w'. split; [exact Hd|]. split.
      * intros Hb. rewrite Ht, Hb in He. now destruct He.
      * intros _. exists l, ls. rewrite Hn. cbn. unfold echoLine.
        rewrite Ht, <- app_assoc. reflexivity.
Qed.

Lemma processCommand_never_faults_witness :
  exists w',
    submit "  xyzzy plugh " (initial blankPage) = Done tt w'
    /\ (Js.trim "  xyzzy plugh " = "" ->
        w' = set_commandInput "  xyzzy plugh " (initial blankPage))
    /\ (Js.trim "  xyzzy plugh " <> "" ->
        exists l ls,
          outputConsole w' =
            outputConsole (initial blankPage)
            ++ mkLine (Js.VString
                         ("> " ++ Js.toLowerCase (Js.trim "  xyzzy plugh ")))
                      "text-gray-500"
               :: l :: ls).
Proof.
  apply (processCommand_never_faults (initial blankPage) "  xyzzy plugh ").
  apply reach_load.
Defined.

(** ** The use table *)

Lemma own_delete o k : Js.own (Js.delete o k) k = None.
Proof.
  induction o as [|[k' v] o IH]; cbn; [reflexivity|].
  destruct (String.eqb k' k) eqn:E; cbn; [exact IH|]. now rewrite E.
Qed.

Lemma includes_opt_held l item :
  In item l -> Js.includes_opt l (Some item) = true.
Proof. intros H. now apply includes_In. Qed.



(** ** take *)

Lemma not_In_without x l : ~ In x (Js.without x l).
Proof.
  unfold Js.without. rewrite filter_In. intros [_ H].
  now rewrite String.eqb_refl in H.
Qed.

Lemma at_update rs id f r :
  Rooms.at_ rs id = Some r -> Rooms.at_ (Rooms.update id f rs) id = Some (f r).
Proof.
  unfold Rooms.at_, Rooms.update.
  destruct (String.eqb id "cell"); [now intros [= ->]|].
  destruct (String.eqb id "hallway"); [now intros [= ->]|].
  destruct (String.eqb id "armory"); [now intros [= ->]|discriminate].
Qed.

(** What lies in the current room is not in the inventory. *)
Lemma wf_room_item_not_held w room id :
  wf w -> Rooms.at_ (rooms w) (currentRoom w) = Some room ->
  In id (Room.items room) -> ~ In id (inventory w).
Proof.
  intros H Hat Hin. wf_open H.
  cases_of Hl; injection Hat as <-; cases_of Hp; cases_of Hin;
    cbn; intuition discriminate.
Qed.

Lemma count_occ_snoc l (x : string) :
  ~ In x l -> count_occ string_dec (l ++ [x]) x = 1.
Proof.
  intros H. rewrite count_occ_app. cbn.
  destruct (string_dec x x); [|contradiction].
  apply (count_occ_not_In string_dec) in H. lia.
Qed.

(** C5. In a well-formed world (every state the page can reach is one),
    [take noun] succeeds exactly when the noun is in the current room's
    item array and its [canTake] flag is set.  On success the item leaves
    the room, is appended at the tail of the inventory, where it then
    occurs once, and "You take the <name>." is printed; taking it again
    fails.  Otherwise "You can't take that." is printed and nothing else
    changes. *)
Theorem take_contract (w : World) (noun : string) :
  wf w ->
  (takeable w noun = true ->
     exists item w',
       items noun = Some item
       /\ w' = emit [tookLine item] (dropRoomItem noun (pushInventory noun w))
       /\ take noun w = Done tt w'
       /\ inventory w' = inventory w ++ [noun]
       /\ count_occ string_dec (inventory w') noun = 1
       /\ (exists room', Rooms.at_ (rooms w') (currentRoom w') = Some room'
                         /\ ~ In noun (Room.items room'))
       /\ takeable w' noun = false
       /\ take noun w' = Done tt (emit [cantTake] w'))
  /\ (takeable w noun = false -> take noun w = Done tt (emit [cantTake] w)).
Proof.
  intros H. destruct (wf_room w H) as [room Hat].
  unfold takeable at 1 3. rewrite Hat, (take_eq w room noun Hat).
  destruct (Js.includes (Room.items room) noun) eqn:Hin.
  - destruct (wf_take w room noun H Hat Hin) as (item & Hitem & _).
    rewrite Hitem. cbn [andb]. split; [|now intros ->].
    intros Hcan. rewrite Hcan. eexists item, _.
    split; [reflexivity|]. split; [reflexivity|]. split; [reflexivity|].
    split; [reflexivity|].
    apply includes_In in Hin.
    split; [apply count_occ_snoc; eauto using wf_room_item_not_held|].
    pose (room' := Room.set_items (Js.without noun (Room.items room)) room).
    assert (Hat' : Rooms.at_
              (rooms (emit [tookLine item] (dropRoomItem noun (pushInventory noun w))))
              (currentRoom (emit [tookLine item] (dropRoomItem noun (pushInventory noun w))))
            = Some room').
    { exact (at_update (rooms w) (currentRoom w)
               (fun r => Room.set_items (Js.without noun (Room.items r)) r)
               room Hat). }
    assert (Hout : Js.includes (Room.items room') noun = false).
    { apply includes_not_In, not_In_without. }
    split; [exists room'; split; [exact Hat' | apply not_In_without]|].
    split.
    + unfold takeable. rewrite Hat', Hitem, Hout. reflexivity.
    + rewrite (take_eq _ room' noun Hat'), Hout. reflexivity.
  - split; [|reflexivity].
    destruct (items noun); discriminate.
Qed.

Lemma keyRevealed_wf : wf keyRevealed.
Proof. wf_done. Qed.

Lemma take_contract_witness :
  take "key" keyRevealed
    = Done tt (emit [mkLine (Js.VString "You take the Rusty Key.") ""]
                 (dropRoomItem "key" (pushInventory "key" keyRevealed)))
  /\ take "stone" keyRevealed = Done tt (emit [cantTake] keyRevealed).
Proof.
  destruct (take_contract keyRevealed "key" keyRevealed_wf) as [Hyes _].
  destruct (take_contract keyRevealed "stone" keyRevealed_wf) as [_ Hno].
  split.
  - destruct (Hyes eq_refl) as (item & w' & Hitem & -> & Htake & _).
    injection Hitem as <-. exact Htake.
  - exact (Hno eq_refl).
Defined.

(** ** The command parser *)

Lemma processCommand_parse w :
  processCommand w =
    match parse (Dom.commandInput (dom w)) with
    | None => Done tt w
    | Some (verb, noun) =>
        dispatch verb noun (set_commandInput "" (emit [echoLine w] w))
    end.
Proof.
  rewrite processCommand_eq. unfold parse. fold (commandText w).
  now destruct (String.eqb (commandText w) "").
Qed.

Lemma split_nonempty s : Js.split s <> [].
Proof.
  destruct s as [|c s]; cbn; [discriminate|].
  destruct (Ascii.eqb c Js.space); [discriminate|].
  destruct (Js.split s); discriminate.
Qed.

Lemma split_head s : nth_error (Js.split s) 0 = Some (beforeSpace s).
Proof.
  induction s as [|c s IH]; cbn; [reflexivity|].
  destruct (Ascii.eqb c Js.space); [reflexivity|].
  destruct (Js.split s) as [|h t]; cbn in *; congruence.
Qed.

Lemma join_split s : Js.join (Js.split s) = s.
Proof.
  induction s as [|c s IH]; cbn; [reflexivity|].
  pose proof (split_nonempty s) as Hne.
  destruct (Ascii.eqb_spec c Js.space) as [->|_].
  - destruct (Js.split s) as [|h t]; [contradiction|].
    cbn in *. now rewrite IH.
  - destruct (Js.split s) as [|h [|h' t]]; [contradiction| |]; cbn in *;
      now rewrite <- IH.
Qed.

Lemma join_tail_split s : Js.join (tl (Js.split s)) = afterSpace s.
Proof.
  induction s as [|c s IH]; cbn; [reflexivity|].
  destruct (Ascii.eqb c Js.space); cbn; [apply join_split|].
  destruct (Js.split s) as [|h t]; cbn in *; [discriminate IH || exact IH | exact IH].
Qed.

Lemma lowerChar_space c :
  Ascii.eqb (Js.lowerChar c) Js.space = Ascii.eqb c Js.space.
Proof.
  destruct c as [[] [] [] [] [] [] [] []]; reflexivity.
Qed.

Lemma toLowerCase_append a b :
  Js.toLowerCase (a ++ b) = (Js.toLowerCase a ++ Js.toLowerCase b)%string.
Proof. induction a as [|c a IH]; cbn; congruence. Qed.

Lemma split_toLowerCase s :
  Js.split (Js.toLowerCase s) = map Js.toLowerCase (Js.split s).
Proof.
  induction s as [|c s IH]; cbn; [reflexivity|].
  rewrite lowerChar_space, IH.
  destruct (Ascii.eqb c Js.space); [reflexivity|].
  now destruct (Js.split s).
Qed.

Lemma join_toLowerCase l :
  Js.join (map Js.toLowerCase l) = Js.toLowerCase (Js.join l).
Proof.
  induction l as [|p [|q l] IH]; cbn in *; [reflexivity..|].
  rewrite toLowerCase_append. cbn. now rewrite <- IH.
Qed.

Lemma space_isWhiteSpace c :
  Ascii.eqb c Js.space = true -> Js.isWhiteSpace c = true.
Proof. intros H. apply Ascii.eqb_eq in H. now subst. Qed.

Lemma tokens_trimStart s : tokens (Js.trimStart s) = tokens s.
Proof.
  induction s as [|c s IH]; [reflexivity|].
  cbn [Js.trimStart]. destruct (Js.isWhiteSpace c) eqn:E; [|reflexivity].
  cbn. now rewrite E.
Qed.

(** [trimEnd] keeps the first character of whatever it keeps. *)
Lemma trimEnd_head s c t :
  Js.trimEnd s = String c t -> exists rest, s = String c rest.
Proof.
  destruct s as [|c' s]; cbn; [discriminate|].
  destruct (Js.trimEnd s); [destruct (Js.isWhiteSpace c')|];
    intros [= <- _] || discriminate; eauto.
Qed.

Lemma trimEnd_blank s : Js.trimEnd s = "" -> tokens s = [].
Proof.
  induction s as [|c s IH]; cbn; [reflexivity|].
  destruct (Js.trimEnd s); [|discriminate].
  destruct (Js.isWhiteSpace c); [auto | discriminate].
Qed.

Lemma tokens_cons c d s :
  tokens (String c (String d s)) =
    if Js.isWhiteSpace c then tokens (String d s)
    else if Js.isWhiteSpace d then String c EmptyString :: tokens (String d s)
    else match tokens (String d s) with
         | t :: ts => String c t :: ts
         | [] => [String c EmptyString]
         end.
Proof. reflexivity. Qed.

Lemma tokens_trimEnd s : tokens (Js.trimEnd s) = tokens s.
Proof.
  induction s as [|c s IH]; [reflexivity|].
  cbn [Js.trimEnd]. destruct (Js.trimEnd s) as [|d t] eqn:E.
  - pose proof (trimEnd_blank s E) as Hs.
    destruct (Js.isWhiteSpace c) eqn:Ec; cbn; rewrite Ec, ?Hs; [reflexivity|].
    destruct s as [|d s']; [reflexivity|].
    now destruct (Js.isWhiteSpace d).
  - destruct (trimEnd_head s d t E) as [rest ->].
    now rewrite (tokens_cons c d t), (tokens_cons c d rest), IH.
Qed.

Lemma tokens_trim s : tokens (Js.trim s) = tokens s.
Proof. unfold Js.trim. now rewrite tokens_trimEnd, tokens_trimStart. Qed.

(** On single-spaced text the tokens are the pieces of [split]. *)
Lemma tokens_split s :
  singleSpaced s = true ->
  match s with
  | EmptyString => True
  | String c _ =>
      if Js.isWhiteSpace c then EmptyString :: tokens s = Js.split s
      else tokens s = Js.split s
  end.
Proof.
  induction s as [|c s IH]; [trivial|].
  cbn [singleSpaced]. intros H. apply andb_true_iff in H as [Hc Hs].
  specialize (IH Hs). cbn [tokens Js.split].
  destruct (Js.isWhiteSpace c) eqn:Ec.
  - apply andb_true_iff in Hc as [Hsp Hd]. rewrite Hsp.
    destruct s as [|d s']; [discriminate|].
    apply negb_true_iff in Hd. rewrite Hd in IH. now rewrite IH.
  - destruct (Ascii.eqb c Js.space) eqn:Hsp;
      [apply space_isWhiteSpace in Hsp; congruence|].
    destruct s as [|d s']; [reflexivity|].
    destruct (Js.isWhiteSpace d); now rewrite <- IH.
Qed.

Lemma trimStart_head s c t :
  Js.trimStart s = String c t -> Js.isWhiteSpace c = false.
Proof.
  induction s as [|c' s IH]; cbn; [discriminate|].
  destruct (Js.isWhiteSpace c') eqn:E; [exact IH|]. now intros [= <- _].
Qed.

Lemma trim_head s c t : Js.trim s = String c t -> Js.isWhiteSpace c = false.
Proof.
  unfold Js.trim. intros H.
  destruct (trimEnd_head _ _ _ H) as [rest Hr].
  eapply trimStart_head; eauto.
Qed.

Lemma tokens_split_trim raw :
  singleSpaced (Js.trim raw) = true -> Js.trim raw <> "" ->
  Js.split (Js.trim raw) = tokens raw.
Proof.
  intros Hs Hne. pose proof (tokens_split _ Hs) as H.
  destruct (Js.trim raw) as [|c t] eqn:E; [contradiction|].
  rewrite (trim_head raw c t E) in H. now rewrite <- H, <- E, tokens_trim.
Qed.

(** C8, as stated, fails: the script splits on every single space, so a
    second space between two words opens an empty piece and ends up in
    the noun.  "go  north" and "go north" have the same tokens and parse
    differently, and only the second is parsed as the specification
    says. *)
Lemma parse_double_space_counterexample :
  tokens "go  north" = tokens "go north"
  /\ parse "go north" = Some (Some "go", "north")
  /\ parse "go  north" = Some (Some "go", " north")
  /\ specParse "go  north" = Some (Some "go", "north")
  /\ parse "go  north" <> specParse "go  north".
Proof. repeat split; try reflexivity. cbv. discriminate. Qed.

(** C8, amended.  [processCommand] works on the trimmed, lower-cased
    input: when that is empty nothing happens at all (no echo, no
    change); otherwise the verb is the text before its first space and
    the noun is all the text after that space.  For input whose words
    are separated by single spaces this is the first word and the
    remaining words joined by single spaces, as specified. *)
Theorem parse_contract (raw : string) :
  (forall w,
     processCommand w =
       match parse (Dom.commandInput (dom w)) with
       | None => Done tt w
       | Some (verb, noun) =>
           dispatch verb noun (set_commandInput "" (emit [echoLine w] w))
       end)
  /\ (Js.trim raw = "" -> parse raw = None)
  /\ (Js.trim raw <> "" ->
      parse raw = Some (Some (beforeSpace (Js.toLowerCase (Js.trim raw))),
                        afterSpace (Js.toLowerCase (Js.trim raw))))
  /\ (singleSpaced (Js.trim raw) = true -> parse raw = specParse raw).
Proof.
  split; [exact processCommand_parse|].
  unfold parse.
  destruct (String.eqb_spec (Js.toLowerCase (Js.trim raw)) "") as [He | He];
    rewrite toLowerCase_empty in He.
  - split; [reflexivity|]. split; [congruence|].
    intros _. unfold specParse. now rewrite <- tokens_trim, He.
  - split; [congruence|]. split.
    + intros _. now rewrite split_head, join_tail_split.
    + intros Hs. unfold specParse.
      rewrite split_toLowerCase, (tokens_split_trim raw Hs He).
      destruct (tokens raw) as [|v rest] eqn:Et.
      * exfalso. apply (split_nonempty (Js.trim raw)).
        now rewrite (tokens_split_trim raw Hs He).
      * cbn [map nth_error tl]. now rewrite join_toLowerCase.
Qed.

Lemma parse_contract_witness :
  parse "   " = None
  /\ parse " Take  the KEY " = Some (Some "take", " the key")
  /\ parse "Use Key on Door" = specParse "Use Key on Door".
Proof.
  split; [|split].
  - apply (parse_contract "   "). reflexivity.
  - apply (parse_contract " Take  the KEY "). discriminate.
  - apply (parse_contract "Use Key on Door"). reflexivity.
Defined.

(** ** What a command can change *)

Lemma mutation_emit verb noun ls w w1 :
  mutation verb noun (emit ls w) w1 ->
  exists w1', mutation verb noun w w1' /\ w1 = emit ls w1'.
Proof.
  intros [ | room dest Hv Hat Hget Ht Hb | Hv Htake | Hv Hn Hc Hk
         | Hv Hheld Hk | Hv Hheld Hs ].
  - exists w. split; [apply mut_none | reflexivity].
  - exists (set_currentRoom dest w).
    split; [now apply (mut_move _ _ _ room) | reflexivity].
  - exists (dropRoomItem noun (pushInventory noun w)).
    split; [now apply mut_take | reflexivity].
  - exists (pushCellItem "key" w).
    split; [now apply mut_reveal | reflexivity].
  - exists (unblockHallwayEast w).
    split; [now apply mut_unlock | reflexivity].
  - exists (sessionOver w).
    split; [now apply mut_escape | reflexivity].
Qed.

Lemma processCommand_mutation w :
  wf w ->
  match parse (Dom.commandInput (dom w)) with
  | None => processCommand w = Done tt w
  | Some (verb, noun) =>
      exists w1 l ls,
        mutation verb noun (set_commandInput "" w) w1
        /\ processCommand w = Done tt (emit (echoLine w :: l :: ls) w1)
  end.
Proof.
  intros H. rewrite processCommand_parse.
  destruct (parse _) as [[verb noun]|]; [|reflexivity].
  destruct (dispatch_performs verb noun
              (emit [echoLine w] (set_commandInput "" w)))
    as (w1 & l & ls & Hm & Hd); [now apply (wf_ext w)|].
  apply mutation_emit in Hm as (w1' & Hm & ->).
  exists w1', l, ls. split; [exact Hm|].
  change (set_commandInput "" (emit [echoLine w] w))
    with (emit [echoLine w] (set_commandInput "" w)).
  rewrite Hd. now rewrite emit_emit.
Qed.

Lemma take_keeps_keyFound w noun :
  wf w -> takeable w noun = true ->
  keyFound (dropRoomItem noun (pushInventory noun w)) = keyFound w.
Proof.
  intros H. unfold takeable.
  destruct (Rooms.at_ _ _) as [room|] eqn:Hat; [|discriminate].
  destruct (items noun) as [item|] eqn:Hitem; [|discriminate].
  intros Ht. apply andb_true_iff in Ht as [Hin Hcan].
  apply includes_In in Hin. revert Hitem Hcan. wf_open H.
  cases_of Hl; injection Hat as <-; cases_of Hp; cases_of Hin;
    cbn; intros [= <-]; (discriminate || reflexivity).
Qed.

(** Only examining the stone in the cell brings the key out. *)
Lemma mutation_keyFound verb noun w w1 :
  wf w -> mutation verb noun w w1 ->
  keyFound w1 = keyFound w
  \/ (keyFound w = false /\ keyFound w1 = true
      /\ strictEq verb "examine" || strictEq verb "x" = true
      /\ noun = "stone" /\ currentRoom w = "cell").
Proof.
  intros H [ | room dest _ _ _ _ _ | _ Htake | Hv Hn Hc Hk | _ _ _ | _ _ _ ];
    try (left; reflexivity).
  - left. now apply take_keeps_keyFound.
  - right. repeat split; auto.
    apply orb_true_iff. right.
    apply includes_In, in_or_app. right. now left.
Qed.

(** Only the winning blow clears [gameRunning]; nothing sets it. *)
Lemma mutation_gameRunning verb noun w w1 :
  mutation verb noun w w1 ->
  gameRunning w1 = gameRunning w
  \/ (gameRunning w1 = false
      /\ strictEq verb "use" = true
      /\ Js.includes_opt (inventory w) (nth_error (Js.split noun) 0) = true
      /\ swordOnDoor w (nth_error (Js.split noun) 0)
                       (nth_error (Js.split noun) 2) = true
      /\ w1 = sessionOver w).
Proof.
  intros [ | room dest _ _ _ _ _ | _ _ | _ _ _ _ | _ _ _ | Hv Hheld Hs ];
    try (left; reflexivity).
  right. repeat split; assumption.
Qed.

(** ** The stone and the key *)

Lemma wf_stone_present w :
  wf w -> Js.includes (Room.items (Rooms.cell (rooms w))) "stone" = true.
Proof. intros H. wf_open H. cases_of Hp; reflexivity. Qed.

Lemma examine_stone w :
  wf w -> currentRoom w = "cell" ->
  examine "stone" w =
    Done tt
      (if keyFound w
       then emit [descriptionLine stone; greenLine staticLine] w
       else emit [descriptionLine stone; greenLine revealLine]
                 (pushCellItem "key" w)).
Proof.
  intros H Hc.
  assert (Hat : Rooms.at_ (rooms w) (currentRoom w) = Some (Rooms.cell (rooms w)))
    by now rewrite Hc.
  rewrite (examine_eq w _ "stone" Hat), (wf_stone_present w H).
  cbn [orb]. change (items "stone") with (Some stone). cbv iota.
  change (Item.onExamine stone) with (Some stone_onExamine). cbv iota.
  rewrite stone_onExamine_eq.
  change (inventory (emit _ w)) with (inventory w).
  change (rooms (emit _ w)) with (rooms w).
  rewrite <- negb_orb. fold (keyFound w).
  destruct (keyFound w); cbn [negb]; cbv iota.
  - cbn [Js.truthy]. change (negb (String.eqb staticLine "")) with true.
    cbv iota. now rewrite emit_emit.
  - cbn [Js.truthy]. change (negb (String.eqb revealLine "")) with true.
    cbv iota.
    change (pushCellItem "key" (emit [descriptionLine stone] w))
      with (emit [descriptionLine stone] (pushCellItem "key" w)).
    now rewrite emit_emit.
Qed.

Lemma strictEq_eq v s : strictEq v s = true -> v = Some s.
Proof.
  destruct v as [x|]; cbn; [|discriminate].
  intros H. apply String.eqb_eq in H. now subst.
Qed.

(** C6. The stone gives up the key exactly once.  When the script has
    loaded the key is neither in the cell nor held.  From then on, in
    every state the page can reach: while the key has not come out, no
    command brings it out except examining the stone in the cell, which
    appends it to the cell's items and prints the reveal line; once it
    is out (lying in the cell or held) it stays out, and examining the
    stone prints the other, fixed line and changes no item array and not
    the inventory. *)
Theorem stone_reveals_key_once :
  (forall page, keyFound (initial page) = false)
  /\ revealLine <> staticLine
  /\ (forall w, reachable w -> currentRoom w = "cell" -> keyFound w = false ->
        exists w',
          examine "stone" w = Done tt w'
          /\ w' = emit [descriptionLine stone; greenLine revealLine]
                       (pushCellItem "key" w)
          /\ Room.items (Rooms.cell (rooms w'))
               = Room.items (Rooms.cell (rooms w)) ++ ["key"]
          /\ keyFound w' = true)
  /\ (forall w, reachable w -> currentRoom w = "cell" -> keyFound w = true ->
        exists w',
          examine "stone" w = Done tt w'
          /\ w' = emit [descriptionLine stone; greenLine staticLine] w
          /\ rooms w' = rooms w /\ inventory w' = inventory w)
  /\ (forall w w', reachable w -> keyFound w = true ->
        processCommand w = Done tt w' \/ startGame w = Done tt w' ->
        keyFound w' = true)
  /\ (forall w w', reachable w -> keyFound w = false ->
        processCommand w = Done tt w' -> keyFound w' = true ->
        currentRoom w = "cell"
        /\ (parse (Dom.commandInput (dom w)) = Some (Some "examine", "stone")
            \/ parse (Dom.commandInput (dom w)) = Some (Some "x", "stone"))).
Proof.
  split; [reflexivity|]. split; [discriminate|]. split; [|split; [|split]].
  - intros w Hr Hc Hk. apply reachable_wf in Hr.
    rewrite (examine_stone w Hr Hc), Hk. eexists; split; [reflexivity|].
    split; [reflexivity|]. split; [reflexivity|].
    apply orb_true_iff. right. apply includes_In, in_or_app. right. now left.
  - intros w Hr Hc Hk. apply reachable_wf in Hr.
    rewrite (examine_stone w Hr Hc), Hk. eexists; repeat split.
  - intros w w' Hr Hk [Hp | Hs]; apply reachable_wf in Hr.
    + pose proof (processCommand_mutation w Hr) as Hm.
      destruct (parse _) as [[verb noun]|]; [|congruence].
      destruct Hm as (w1 & l & ls & Hm & Hp').
      rewrite Hp' in Hp. injection Hp as <-.
      destruct (mutation_keyFound _ _ _ _
                  (wf_ext w (set_commandInput "" w) eq_refl eq_refl Hr) Hm)
        as [Heq | (Hf & _)].
      * change (keyFound (emit _ w1)) with (keyFound w1). now rewrite Heq.
      * change (keyFound (set_commandInput "" w)) with (keyFound w) in Hf.
        congruence.
    + destruct (wf_room w Hr) as [room Hat].
      rewrite (startGame_eq w room Hat) in Hs. now injection Hs as <-.
  - intros w w' Hr Hk Hp Hk'. apply reachable_wf in Hr.
    pose proof (processCommand_mutation w Hr) as Hm.
    destruct (parse _) as [[verb noun]|]; [|congruence].
    destruct Hm as (w1 & l & ls & Hm & Hp').
    rewrite Hp' in Hp. injection Hp as <-.
    change (keyFound (emit (echoLine w :: l :: ls) w1)) with (keyFound w1) in Hk'.
    destruct (mutation_keyFound _ _ _ _
                  (wf_ext w (set_commandInput "" w) eq_refl eq_refl Hr) Hm)
      as [Heq | (_ & _ & Hv & -> & Hc)].
    + change (keyFound (set_commandInput "" w)) with (keyFound w) in Heq.
      congruence.
    + split; [exact Hc|].
      apply orb_true_iff in Hv as [Hv | Hv]; apply strictEq_eq in Hv;
        subst verb; auto.
Qed.

Lemma stoneExamined_reachable : reachable stoneExamined.
Proof.
  apply (reach_submit (set_commandInput "x stone" (initial blankPage))).
  - apply reach_type, reach_load.
  - reflexivity.
Defined.

Lemma stone_reveals_key_once_witness :
  (exists w',
     examine "stone" (initial blankPage) = Done tt w'
     /\ w' = emit [descriptionLine stone; greenLine revealLine]
               (pushCellItem "key" (initial blankPage))
     /\ Room.items (Rooms.cell (rooms w'))
          = Room.items (Rooms.cell (rooms (initial blankPage))) ++ ["key"]
     /\ keyFound w' = true)
  /\ (exists w',
        examine "stone" stoneExamined = Done tt w'
        /\ w' = emit [descriptionLine stone; greenLine staticLine] stoneExamined
        /\ rooms w' = rooms stoneExamined
        /\ inventory w' = inventory stoneExamined).
Proof.
  destruct stone_reveals_key_once as (_ & _ & Hfirst & Hagain & _).
  split.
  - apply Hfirst; [apply reach_load | reflexivity | reflexivity].
  - apply Hagain; [apply stoneExamined_reachable | reflexivity | reflexivity].
Defined.

(** ** The door that never opens

    The sword lies beyond the very door it is meant to break: from the
    loaded state the player never leaves the cell, so the hallway, the
    armory and the escape lie outside every reachable state.  The use
    table and the session flag are therefore stated over well-formed
    worlds, which include them. *)

Lemma cell_exit_barred w direction dest :
  wf w -> currentRoom w = "cell" ->
  Room.blockedExits (Rooms.cell (rooms w))
    = Room.blockedExits (Rooms.cell initialRooms) ->
  Js.get (Room.exits (Rooms.cell (rooms w))) direction = Js.VString dest ->
  Js.truthy (Js.get (Room.blockedExits (Rooms.cell (rooms w))) direction) = true.
Proof.
  intros H Hcell Hbar. rewrite Hbar. wf_open H. clear Hp Hc Hh Hl Hbar.
  run; intros; (reflexivity || discriminate).
Qed.

Lemma take_in_cell_no_sword w noun :
  wf w -> currentRoom w = "cell" -> takeable w noun = true -> noun <> "sword".
Proof.
  intros H Hcell. unfold takeable. rewrite Hcell.
  change (Rooms.at_ (rooms w) "cell") with (Some (Rooms.cell (rooms w))).
  destruct (items noun); [|discriminate].
  intros Ht. apply andb_true_iff in Ht as [Hin _]. apply includes_In in Hin.
  wf_open H. cases_of Hp; cases_of Hin; discriminate.
Qed.

Lemma reachable_confined w :
  reachable w ->
  currentRoom w = "cell"
  /\ ~ In "sword" (inventory w)
  /\ Room.blockedExits (Rooms.cell (rooms w))
       = Room.blockedExits (Rooms.cell initialRooms).
Proof.
  induction 1 as [page | w w' Hr IH Hs | w raw Hr IH | w w' Hr IH Hp].
  - cbn. intuition discriminate.
  - apply reachable_wf in Hr. destruct (wf_room w Hr) as [room Hat].
    rewrite (startGame_eq w room Hat) in Hs. now injection Hs as <-.
  - exact IH.
  - apply reachable_wf in Hr. destruct IH as (Hc & Hsw & Hb).
    pose proof (processCommand_mutation w Hr) as Hm.
    destruct (parse _) as [[verb noun]|];
      [|rewrite Hm in Hp; now injection Hp as <-].
    destruct Hm as (w1 & l & ls & Hm & Hp').
    rewrite Hp' in Hp. injection Hp as <-.
    change (currentRoom (emit (echoLine w :: l :: ls) w1)) with (currentRoom w1).
    change (inventory (emit (echoLine w :: l :: ls) w1)) with (inventory w1).
    change (rooms (emit (echoLine w :: l :: ls) w1)) with (rooms w1).
    assert (H0 : wf (set_commandInput "" w)) by now apply (wf_ext w).
    inversion Hm as [ | room dest _ Hat Hget _ Hfree | _ Htake | _ _ _ _
                    | _ _ Hk | _ Hheld Hs ]; subst w1.
    + auto.
    + exfalso.
      change (Rooms.at_ (rooms w) (currentRoom w) = Some room) in Hat.
      rewrite Hc in Hat. injection Hat as <-.
      rewrite (cell_exit_barred w noun dest Hr Hc Hb Hget) in Hfree.
      discriminate.
    + pose proof (take_in_cell_no_sword _ noun H0 Hc Htake) as Hn.
      split; [exact Hc|]. split.
      * cbn. intros Hin. apply in_app_or in Hin as [Hin | [Hin | []]]; auto.
      * cbn. unfold Rooms.update.
        change (currentRoom (set_commandInput "" w)) with (currentRoom w).
        rewrite Hc. exact Hb.
    + repeat split; auto.
    + exfalso. unfold keyOnDoor in Hk.
      change (currentRoom (set_commandInput "" w)) with (currentRoom w) in Hk.
      rewrite Hc, andb_false_r in Hk. discriminate.
    + exfalso. unfold swordOnDoor in Hs.
      apply andb_true_iff in Hs as [Hs _].
      apply andb_true_iff in Hs as [Hi _].
      apply strictEq_eq in Hi. rewrite Hi in Hheld.
      apply includes_In in Hheld. contradiction.
Qed.

(** ** One place per item *)

Lemma wf_singlePlace w : wf w -> singlePlace w.
Proof.
  intros H. unfold singlePlace, occurrences.
  apply (NoDup_count_occ string_dec).
  wf_open H. cases_of Hp; cbn;
    repeat (constructor; [cbn; intuition discriminate|]); constructor.
Qed.

Lemma performs_singlePlace m verb noun w :
  performs m verb noun -> wf w ->
  exists w', m w = Done tt w' /\ singlePlace w'.
Proof.
  intros Hm H. destruct (Hm w H) as (w1 & l & ls & Hmut & ->).
  eexists; split; [reflexivity|].
  eapply wf_singlePlace, wf_emit, mutation_wf; eauto.
Qed.

(** C9. In every state the page can reach, each item identifier occurs
    at most once over the three rooms' item arrays and the inventory
    (once: in one room or held; not at all: not yet revealed), and every
    command leaves it so: each of the six actions, a submitted input of
    any kind, and a click on the start button. *)
Theorem item_in_one_place (w : World) :
  reachable w ->
  singlePlace w
  /\ (forall noun, exists w', take noun w = Done tt w' /\ singlePlace w')
  /\ (forall noun, exists w', examine noun w = Done tt w' /\ singlePlace w')
  /\ (forall noun, exists w', use noun w = Done tt w' /\ singlePlace w')
  /\ (forall noun, exists w', move noun w = Done tt w' /\ singlePlace w')
  /\ (exists w', look w = Done tt w' /\ singlePlace w')
  /\ (exists w', showInventory w = Done tt w' /\ singlePlace w')
  /\ (forall raw, exists w', submit raw w = Done tt w' /\ singlePlace w')
  /\ (exists w', startGame w = Done tt w' /\ singlePlace w').
Proof.
  intros Hr. pose proof (reachable_wf w Hr) as H.
  split; [now apply wf_singlePlace|].
  split; [intros noun;
          exact (performs_singlePlace _ (Some "take") noun w
                   (take_performs (Some "take") noun eq_refl) H)|].
  split; [intros noun;
          exact (performs_singlePlace _ (Some "examine") noun w
                   (examine_performs (Some "examine") noun eq_refl) H)|].
  split; [intros noun;
          exact (performs_singlePlace _ (Some "use") noun w
                   (use_performs (Some "use") noun eq_refl) H)|].
  split; [intros noun;
          exact (performs_singlePlace _ (Some "go") noun w
                   (move_performs (Some "go") noun eq_refl) H)|].
  split; [exact (performs_singlePlace _ None "" w (look_performs _ _) H)|].
  split; [exact (performs_singlePlace _ None "" w
                   (showInventory_performs _ _) H)|].
  split.
  - intros raw.
    destruct (processCommand_wf (set_commandInput raw w)) as (w' & Hp & H').
    + now apply (wf_ext w).
    + exists w'. split; [exact Hp | now apply wf_singlePlace].
  - destruct (startGame_wf w H) as (w' & Hs & H').
    exists w'. split; [exact Hs | now apply wf_singlePlace].
Qed.

Lemma item_in_one_place_witness :
  singlePlace stoneExamined
  /\ exists w', take "key" stoneExamined = Done tt w' /\ singlePlace w'.
Proof.
  destruct (item_in_one_place stoneExamined stoneExamined_reachable)
    as (Hnow & Htake & _).
  split; [exact Hnow | exact (Htake "key")].
Defined.

(** ** The session flag *)

Lemma look_flagBlind : flagBlind look.
Proof. intros w b. unfold look. blind. Qed.

Lemma move_flagBlind direction : flagBlind (move direction).
Proof.
  intros w b. unfold move. blind.
  destruct (Js.get (Room.exits _) direction) as [dest| |]; try exact I.
  apply (look_flagBlind (set_currentRoom dest w) b).
Qed.

Lemma take_flagBlind itemName : flagBlind (take itemName).
Proof. intros w b. unfold take. blind. Qed.

Lemma examine_flagBlind itemName : flagBlind (examine itemName).
Proof.
  intros w b. unfold examine, items. blind.
  all: cbn [Item.onExamine stone key sword]; cbv beta iota.
  all: try (cbn; auto; fail).
  all: rewrite !stone_onExamine_eq; unfold inventory;
       cbn [player rooms emit set_outputConsole set_dom set_gameRunning];
       blind.
Qed.

Lemma listInventory_flagBlind held : flagBlind (listInventory held).
Proof.
  induction held as [|x held IH]; intros w b; cbn [listInventory].
  - cbn. auto.
  - blind. apply (IH (emit _ w) b).
Qed.

Lemma showInventory_flagBlind : flagBlind showInventory.
Proof.
  intros w b. unfold showInventory. blind.
  apply (listInventory_flagBlind _ (emit _ w) b).
Qed.

Lemma use_flagBlind command : flagBlind (use command).
Proof.
  intros w b. rewrite !use_eq. unfold keyOnDoor, swordOnDoor. blind.
Qed.

Lemma dispatch_flagBlind verb noun : flagBlind (dispatch verb noun).
Proof.
  unfold dispatch.
  repeat match goal with
  | |- flagBlind (if ?x then _ else _) => destruct x
  end;
  auto using look_flagBlind, move_flagBlind, take_flagBlind, examine_flagBlind,
    showInventory_flagBlind, use_flagBlind.
  intros w b. cbn. auto.
Qed.

Lemma processCommand_flagBlind : flagBlind processCommand.
Proof.
  intros w b. rewrite !processCommand_parse.
  cbn [dom set_gameRunning].
  destruct (parse _) as [[verb noun]|]; [|cbn; auto].
  apply (dispatch_flagBlind verb noun (set_commandInput "" (emit [echoLine w] w)) b).
Qed.

(** C2, as stated, fails: [processCommand] never tests [gameRunning].
    Before the start button has been clicked the flag is false, and a
    submitted "x stone" is echoed, answered, and puts the key into the
    cell all the same. *)
Lemma idle_command_counterexample :
  gameRunning (initial blankPage) = false
  /\ exists w',
       submit "x stone" (initial blankPage) = Done tt w'
       /\ gameRunning w' = false
       /\ Room.items (Rooms.cell (rooms (initial blankPage))) = ["stone"]
       /\ Room.items (Rooms.cell (rooms w')) = ["stone"; "key"]
       /\ List.length (outputConsole w') = 3.
Proof.
  split; [reflexivity|]. exists stoneExamined. repeat split.
Qed.

(** C2, amended.  The session flag has two states, and [processCommand]
    does not consult it: from a well-formed world (every reachable state
    is one) a command runs the same way with the flag set or cleared,
    world model and page coming out equal.  No command sets the flag.
    A command clears it only as the successful escape: verb [use], first
    token [sword] and held, third token [door], in the cell; and that
    command always clears it, unblocking the cell's north exit and
    printing the win line. *)
Theorem session_flag (w w' : World) :
  wf w ->
  processCommand w = Done tt w' ->
  (forall b, sameButFlag (processCommand w) (processCommand (set_gameRunning b w)))
  /\ (gameRunning w' = true -> gameRunning w = true)
  /\ (gameRunning w = true -> gameRunning w' = false ->
      exists noun,
        parse (Dom.commandInput (dom w)) = Some (Some "use", noun)
        /\ nth_error (Js.split noun) 0 = Some "sword"
        /\ nth_error (Js.split noun) 2 = Some "door"
        /\ currentRoom w = "cell"
        /\ In "sword" (inventory w))
  /\ (forall noun,
        parse (Dom.commandInput (dom w)) = Some (Some "use", noun) ->
        nth_error (Js.split noun) 0 = Some "sword" ->
        nth_error (Js.split noun) 2 = Some "door" ->
        currentRoom w = "cell" ->
        In "sword" (inventory w) ->
        gameRunning w' = false
        /\ Js.own (Room.blockedExits (Rooms.cell (rooms w'))) "north" = None
        /\ outputConsole w' = outputConsole w ++ [echoLine w; shatterLine; winLine]).
Proof.
  intros H Hp. split; [intros b; apply processCommand_flagBlind|].
  assert (Hescape : forall noun,
            parse (Dom.commandInput (dom w)) = Some (Some "use", noun) ->
            nth_error (Js.split noun) 0 = Some "sword" ->
            nth_error (Js.split noun) 2 = Some "door" ->
            currentRoom w = "cell" ->
            In "sword" (inventory w) ->
            w' = escaped (set_commandInput "" (emit [echoLine w] w))).
  { intros noun Hparse H0 H2 Hc Hin.
    rewrite processCommand_parse, Hparse in Hp.
    change (dispatch (Some "use") noun) with (use noun) in Hp.
    rewrite use_eq, H0, H2 in Hp.
    unfold keyOnDoor, swordOnDoor in Hp.
    change (currentRoom (set_commandInput "" (emit [echoLine w] w)))
      with (currentRoom w) in Hp.
    change (inventory (set_commandInput "" (emit [echoLine w] w)))
      with (inventory w) in Hp.
    rewrite Hc, (includes_opt_held _ _ Hin) in Hp.
    cbn [negb strictEq andb] in Hp.
    change (String.eqb "sword" "key") with false in Hp.
    change (String.eqb "sword" "sword") with true in Hp.
    change (String.eqb "door" "door") with true in Hp.
    change (String.eqb "cell" "cell") with true in Hp.
    cbn [andb] in Hp. now injection Hp as <-. }
  assert (Hwin : forall noun,
            parse (Dom.commandInput (dom w)) = Some (Some "use", noun) ->
            nth_error (Js.split noun) 0 = Some "sword" ->
            nth_error (Js.split noun) 2 = Some "door" ->
            currentRoom w = "cell" ->
            In "sword" (inventory w) ->
            gameRunning w' = false
            /\ Js.own (Room.blockedExits (Rooms.cell (rooms w'))) "north" = None
            /\ outputConsole w'
                 = outputConsole w ++ [echoLine w; shatterLine; winLine]).
  { intros noun Hparse H0 H2 Hc Hin.
    rewrite (Hescape noun Hparse H0 H2 Hc Hin).
    split; [reflexivity|]. split; [apply own_delete|].
    cbn. now rewrite <- app_assoc. }
  pose proof (processCommand_mutation w H) as Hm.
  destruct (parse (Dom.commandInput (dom w))) as [[verb noun]|] eqn:Hparse.
  - destruct Hm as (w1 & l & ls & Hm & Hp').
    rewrite Hp' in Hp. injection Hp as Hw'.
    assert (Hg : gameRunning w' = gameRunning w1) by now rewrite <- Hw'.
    rewrite Hg.
    destruct (mutation_gameRunning _ _ _ _ Hm)
      as [Heq | (Hoff & Hv & Hheld & Hs & Hw1)].
    + change (gameRunning (set_commandInput "" w)) with (gameRunning w) in Heq.
      split; [congruence|]. split; [congruence|].
      intros noun' Hn. rewrite <- Hg. now apply Hwin.
    + split; [congruence|]. split.
      * intros _ _. exists noun. apply strictEq_eq in Hv. subst verb.
        unfold swordOnDoor in Hs.
        apply andb_true_iff in Hs as [Hs Hc].
        apply andb_true_iff in Hs as [Hi Ht].
        apply strictEq_eq in Hi, Ht. apply String.eqb_eq in Hc.
        rewrite Hi in Hheld. apply includes_In in Hheld.
        repeat split; auto.
      * intros noun' Hn. rewrite <- Hg. now apply Hwin.
  - rewrite Hm in Hp. injection Hp as <-.
    split; [auto|]. split; [congruence | discriminate].
Qed.

Lemma aboutToEscape_wf : wf aboutToEscape.
Proof. wf_done. Qed.

Lemma session_flag_witness :
  gameRunning aboutToEscape = true
  /\ gameRunning (world_of (processCommand aboutToEscape) aboutToEscape) = false
  /\ Js.own (Room.blockedExits (Rooms.cell (rooms
        (world_of (processCommand aboutToEscape) aboutToEscape)))) "north" = None.
Proof.
  destruct (session_flag aboutToEscape
              (world_of (processCommand aboutToEscape) aboutToEscape)
              aboutToEscape_wf eq_refl) as (_ & _ & _ & Hwin).
  destruct (Hwin "sword on door" eq_refl eq_refl eq_refl eq_refl)
    as (Hoff & Hnorth & _); [cbn; auto|].
  split; [reflexivity|]. split; assumption.
Defined.

(** ** Starting a session *)

Lemma abandoned_reachable : reachable abandoned.
Proof.
  apply (reach_submit (set_commandInput "take key" keySeen));
    [apply reach_type | vm_compute; reflexivity].
  apply (reach_submit (set_commandInput "examine stone" started));
    [apply reach_type | vm_compute; reflexivity].
  apply (reach_start (initial blankPage));
    [apply reach_load | vm_compute; reflexivity].
Defined.

(** C1, as stated, fails: [startGame] assigns neither [player] nor
    [rooms].  Started again after a play-through that took the key, the
    session opens with the key still in the inventory. *)
Lemma startGame_no_reset_counterexample :
  reachable abandoned
  /\ exists w',
       startGame abandoned = Done tt w'
       /\ inventory w' = ["key"]
       /\ inventory w' <> []
       /\ In "key" (locations w').
Proof.
  split; [exact abandoned_reachable|].
  exists (world_of (startGame abandoned) abandoned).
  split; [vm_compute; reflexivity|]. split; [vm_compute; reflexivity|].
  split; [vm_compute; discriminate|].
  vm_compute. auto.
Qed.

(** C1, amended.  [startGame] sets [gameRunning], hides the start
    button, shows the input area, clears the console and narrates the
    current room; it leaves the player and the rooms as they are.  So
    when the world model still holds its initial data, as it does when
    the script has just loaded, the session starts with the player in
    the cell, an empty inventory, the stone in the cell, the key nowhere,
    and the cell's north and the hallway's east exit blocked. *)
Theorem startGame_keeps_world (w : World) :
  reachable w ->
  exists w' room,
    startGame w = Done tt w'
    /\ Rooms.at_ (rooms w) (currentRoom w) = Some room
    /\ outputConsole w' = bannerLines ++ lookLines room
    /\ gameRunning w' = true
    /\ Dom.startButtonHidden (dom w') = true
    /\ Dom.inputAreaHidden (dom w') = false
    /\ player w' = player w
    /\ rooms w' = rooms w
    /\ (player w = initialPlayer -> rooms w = initialRooms ->
        currentRoom w' = "cell"
        /\ inventory w' = []
        /\ In "stone" (Room.items (Rooms.cell (rooms w')))
        /\ ~ In "key" (locations w')
        /\ Js.own (Room.blockedExits (Rooms.cell (rooms w'))) "north" <> None
        /\ Js.own (Room.blockedExits (Rooms.hallway (rooms w'))) "east" <> None).
Proof.
  intros Hr. apply reachable_wf in Hr.
  destruct (wf_room w Hr) as [room Hat].
  exists (emit (lookLines room)
            (set_outputConsole bannerLines
               (set_inputAreaHidden false
                  (set_startButtonHidden true (set_gameRunning true w))))), room.
  split; [exact (startGame_eq w room Hat)|].
  split; [exact Hat|]. split; [reflexivity|]. split; [reflexivity|].
  split; [reflexivity|]. split; [reflexivity|].
  split; [reflexivity|]. split; [reflexivity|].
  intros Hp Hrooms. unfold currentRoom, inventory, locations, inventory.
  cbn [player rooms emit set_outputConsole set_dom set_inputAreaHidden
       set_startButtonHidden set_gameRunning].
  rewrite Hp, Hrooms. cbn.
  repeat split; auto; try discriminate. intuition discriminate.
Qed.

Lemma startGame_keeps_world_witness :
  exists w',
    startGame (initial blankPage) = Done tt w'
    /\ gameRunning w' = true
    /\ currentRoom w' = "cell"
    /\ inventory w' = []
    /\ In "stone" (Room.items (Rooms.cell (rooms w')))
    /\ ~ In "key" (locations w').
Proof.
  destruct (startGame_keeps_world (initial blankPage) (reach_load blankPage))
    as (w' & room & Hs & _ & _ & Hg & _ & _ & _ & _ & Hinit).
  destruct (Hinit eq_refl eq_refl) as (Hc & Hi & Hstone & Hkey & _).
  exists w'. repeat split; assumption.
Defined.

(** ** move *)

Lemma wf_texts_truthy w room direction s :
  wf w -> Rooms.at_ (rooms w) (currentRoom w) = Some room ->
  Js.own (Room.exits room) direction = Some s
  \/ Js.own (Room.blockedExits room) direction = Some s ->
  Js.truthy (Js.VString s) = true.
Proof.
  intros H Hat. wf_open H.
  cases_of Hl; injection Hat as <-; cases_of Hc; cases_of Hh; clear Hp; run;
    intros [[=] | [=]]; subst; reflexivity.
Qed.

(** X1. The contract of [move] for every direction that is not the name
    of a member of [Object.prototype]: no such exit, "You can't go that
    way."; a blocked exit, its message; otherwise the player is moved
    and the new room described.  The first two change nothing else. *)
Lemma move_contract w room direction :
  wf w -> Rooms.at_ (rooms w) (currentRoom w) = Some room ->
  Js.inherits direction = false ->
  match Js.own (Room.exits room) direction,
        Js.own (Room.blockedExits room) direction with
  | None, _ => move direction w = Done tt (emit [cantGo] w)
  | Some _, Some message =>
      move direction w =
        Done tt (emit [mkLine (Js.VString message) "text-yellow-400"] w)
  | Some dest, None =>
      exists room',
        Rooms.at_ (rooms w) dest = Some room'
        /\ move direction w =
             Done tt (emit (lookLines room') (set_currentRoom dest w))
  end.
Proof.
  intros H Hat Hinh. rewrite (move_eq w room direction Hat).
  pose proof (wf_texts_truthy w room direction) as Htruthy.
  unfold Js.get. rewrite Hinh.
  destruct (Js.own (Room.exits room) direction) as [dest|] eqn:He;
    [|reflexivity].
  rewrite (Htruthy dest H Hat (or_introl eq_refl)).
  destruct (Js.own (Room.blockedExits room) direction) as [message|] eqn:Hb.
  - now rewrite (Htruthy message H Hat (or_intror eq_refl)).
  - cbn [Js.truthy].
    destruct (wf_move w room direction H Hat) as (dest' & Hget & H').
    + unfold Js.get. rewrite He. now apply (Htruthy dest H Hat), or_introl.
    + unfold Js.get. now rewrite Hb, Hinh.
    + unfold Js.get in Hget. rewrite He in Hget. injection Hget as <-.
      destruct (wf_room _ H') as [room' Hat'].
      exists room'. split; [exact Hat'|]. apply look_eq, Hat'.
Qed.

(** A blocked exit is never passed, whatever the direction. *)
Lemma move_blocked_stays w room direction :
  Rooms.at_ (rooms w) (currentRoom w) = Some room ->
  Js.truthy (Js.get (Room.blockedExits room) direction) = true ->
  exists l, move direction w = Done tt (emit [l] w).
Proof.
  intros Hat Hb. rewrite (move_eq w room direction Hat), Hb.
  destruct (Js.truthy (Js.get (Room.exits room) direction));
    eexists; reflexivity.
Qed.

(** C7. The contract breaks on a direction that names a member every
    JavaScript object inherits.  "constructor" is no key of the cell's
    [exits], yet [room.exits[direction]] reads the inherited member,
    which is truthy, and so does [room.blockedExits[direction]]: [move]
    takes the blocked branch and prints that member instead of
    "You can't go that way." *)
Theorem move_inherited_direction :
  Js.own (Room.exits (Rooms.cell initialRooms)) "constructor" = None
  /\ Js.own (Room.blockedExits (Rooms.cell initialRooms)) "constructor" = None
  /\ move "constructor" (initial blankPage)
       = Done tt (emit [mkLine (Js.VInherited "constructor") "text-yellow-400"]
                    (initial blankPage))
  /\ move "constructor" (initial blankPage)
       <> Done tt (emit [cantGo] (initial blankPage))
  /\ exists w',
       submit "go constructor" (initial blankPage) = Done tt w'
       /\ outputConsole w'
            = [ mkLine (Js.VString "> go constructor") "text-gray-500";
                mkLine (Js.VInherited "constructor") "text-yellow-400" ].
Proof.
  split; [reflexivity|]. split; [reflexivity|]. split; [reflexivity|].
  split; [vm_compute; discriminate|].
  exists (world_of (submit "go constructor" (initial blankPage)) (initial blankPage)).
  split; vm_compute; reflexivity.
Qed.

Lemma inHallwayWithKey_wf : wf inHallwayWithKey.
Proof. wf_done. Qed.

Lemma move_contract_witness :
  move "west" inHallwayWithKey = Done tt (emit [cantGo] inHallwayWithKey)
  /\ move "east" inHallwayWithKey
       = Done tt (emit [mkLine (Js.VString "The door is locked.") "text-yellow-400"]
                    inHallwayWithKey)
  /\ exists room',
       Rooms.at_ (rooms inHallwayWithKey) "cell" = Some room'
       /\ move "south" inHallwayWithKey
            = Done tt (emit (lookLines room')
                         (set_currentRoom "cell" inHallwayWithKey)).
Proof.
  split; [|split].
  - exact (move_contract inHallwayWithKey _ "west" inHallwayWithKey_wf
             eq_refl eq_refl).
  - exact (move_contract inHallwayWithKey _ "east" inHallwayWithKey_wf
             eq_refl eq_refl).
  - exact (move_contract inHallwayWithKey _ "south" inHallwayWithKey_wf
             eq_refl eq_refl).
Defined.

Lemma get_own o k v : Js.get o k = Js.VString v -> Js.own o k = Some v.
Proof.
  unfold Js.get. destruct (Js.own o k); [now intros [= ->]|].
  destruct (Js.inherits k); discriminate.
Qed.

(** X2. Whatever the direction, [move] finishes and touches nothing but
    the player's room and the console: rooms, inventory and session flag
    stay, the room afterwards is one of the three, and it differs from
    the room before only if the direction is an own key of [exits]
    leading there and no own key of [blockedExits]. *)
Theorem move_frame (w : World) (direction : string) :
  wf w ->
  exists w' room,
    move direction w = Done tt w'
    /\ Rooms.at_ (rooms w) (currentRoom w) = Some room
    /\ rooms w' = rooms w
    /\ inventory w' = inventory w
    /\ gameRunning w' = gameRunning w
    /\ In (currentRoom w') roomIds
    /\ (currentRoom w' <> currentRoom w ->
        Js.own (Room.exits room) direction = Some (currentRoom w')
        /\ Js.own (Room.blockedExits room) direction = None).
Proof.
  intros H. destruct (wf_room w H) as [room Hat].
  assert (Hin : In (currentRoom w) roomIds) by (destruct H as (? & ? & ? & ? & H); apply H).
  rewrite (move_eq w room direction Hat).
  destruct (Js.truthy (Js.get (Room.exits room) direction)) eqn:He.
  2: { eexists _, room. split; [reflexivity|].
       do 5 (split; [solve [auto]|]). intros Hne. now destruct Hne. }
  destruct (Js.truthy (Js.get (Room.blockedExits room) direction)) eqn:Hb.
  { eexists _, room. split; [reflexivity|].
    do 5 (split; [solve [auto]|]). intros Hne. now destruct Hne. }
  destruct (wf_move w room direction H Hat He Hb) as (dest & Hget & H').
  rewrite Hget. destruct (wf_room _ H') as [room' Hat'].
  rewrite (look_eq _ room' Hat'). eexists _, room. split; [reflexivity|].
  split; [exact Hat|]. split; [reflexivity|]. split; [reflexivity|].
  split; [reflexivity|]. split; [destruct H' as (? & ? & ? & ? & H'); apply H'|].
  intros _. split; [now apply get_own|].
  destruct (Js.own (Room.blockedExits room) direction) as [m|] eqn:Hown;
    [|reflexivity].
  unfold Js.get in Hb. rewrite Hown in Hb.
  now rewrite (wf_texts_truthy w room direction m H Hat (or_intror Hown)) in Hb.
Qed.

Lemma move_frame_witness :
  exists w' room,
    move "south" inHallwayWithKey = Done tt w'
    /\ Rooms.at_ (rooms inHallwayWithKey) (currentRoom inHallwayWithKey)
         = Some room
    /\ rooms w' = rooms inHallwayWithKey
    /\ inventory w' = inventory inHallwayWithKey
    /\ gameRunning w' = gameRunning inHallwayWithKey
    /\ In (currentRoom w') roomIds
    /\ (currentRoom w' <> currentRoom inHallwayWithKey ->
        Js.own (Room.exits room) "south" = Some (currentRoom w')
        /\ Js.own (Room.blockedExits room) "south" = None).
Proof. exact (move_frame inHallwayWithKey "south" inHallwayWithKey_wf). Defined.

(** X3. The game cannot be won.  In every state the page can reach the
    player is in the cell, does not hold the sword and the north exit is
    still barred; no submitted command changes the session flag, so a
    started session never ends. *)
Theorem escape_unreachable (w : World) :
  reachable w ->
  currentRoom w = "cell"
  /\ ~ In "sword" (inventory w)
  /\ Js.own (Room.blockedExits (Rooms.cell (rooms w))) "north"
       = Some "The door is barred from the other side."
  /\ (forall raw, exists w',
        submit raw w = Done tt w' /\ gameRunning w' = gameRunning w).
Proof.
  intros Hr. destruct (reachable_confined w Hr) as (Hcell & Hsw & Hbar).
  split; [exact Hcell|]. split; [exact Hsw|]. split; [now rewrite Hbar|].
  intros raw. pose (w0 := set_commandInput raw w).
  assert (Hr0 : reachable w0) by now apply reach_type.
  pose proof (processCommand_mutation w0 (reachable_wf w0 Hr0)) as Hm.
  rewrite submit_eq. fold w0.
  destruct (parse _) as [[verb noun]|]; [|now exists w0].
  destruct Hm as (w1 & l & ls & Hm & ->).
  eexists; split; [reflexivity|].
  destruct (mutation_gameRunning _ _ _ _ Hm)
    as [Heq | (_ & _ & Hheld & Hs & _)]; [exact Heq|].
  exfalso. unfold swordOnDoor in Hs.
  apply andb_true_iff in Hs as [Hs _]. apply andb_true_iff in Hs as [Hi _].
  apply strictEq_eq in Hi. rewrite Hi in Hheld.
  apply includes_In in Hheld. contradiction.
Qed.

Lemma escape_unreachable_witness :
  currentRoom abandoned = "cell"
  /\ ~ In "sword" (inventory abandoned)
  /\ Js.own (Room.blockedExits (Rooms.cell (rooms abandoned))) "north"
       = Some "The door is barred from the other side."
  /\ (forall raw, exists w',
        submit raw abandoned = Done tt w'
        /\ gameRunning w' = gameRunning abandoned).
Proof. exact (escape_unreachable abandoned abandoned_reachable). Defined.

Lemma roomKept_refl r : roomKept r r.
Proof. repeat split; auto. Qed.

Lemma roomKept_trans r1 r2 r3 : roomKept r1 r2 -> roomKept r2 r3 -> roomKept r1 r3.
Proof.
  intros (Hn & Hd & He & Hb) (Hn' & Hd' & He' & Hb').
  repeat split; try congruence. auto.
Qed.

Lemma layoutKept_refl rs : layoutKept rs rs.
Proof. repeat split; auto. Qed.

Lemma layoutKept_trans rs1 rs2 rs3 :
  layoutKept rs1 rs2 -> layoutKept rs2 rs3 -> layoutKept rs1 rs3.
Proof.
  intros (Hc & Hh & Ha) (Hc' & Hh' & Ha').
  repeat split; eapply roomKept_trans; eauto.
Qed.

Lemma own_delete_some o k d m :
  Js.own (Js.delete o k) d = Some m -> Js.own o d = Some m.
Proof.
  induction o as [|[k' v] o IH]; [discriminate|].
  change (Js.delete ((k', v) :: o) k)
    with (if negb (String.eqb k' k) then (k', v) :: Js.delete o k
          else Js.delete o k).
  destruct (String.eqb_spec k' k) as [Hk|Hk]; cbn [negb Js.own].
  - destruct (String.eqb_spec k' d) as [Hd|Hd]; [|exact IH].
    subst. now rewrite own_delete.
  - destruct (String.eqb k' d); auto.
Qed.

Lemma roomKept_set_items l r : roomKept r (Room.set_items l r).
Proof. repeat split; auto. Qed.

Lemma roomKept_delete k r :
  roomKept r (Room.set_blockedExits (Js.delete (Room.blockedExits r) k) r).
Proof. repeat split; auto. cbn. intros d m. apply own_delete_some. Qed.

Lemma layoutKept_update id f rs :
  (forall r, roomKept r (f r)) -> layoutKept rs (Rooms.update id f rs).
Proof.
  intros Hf. unfold Rooms.update.
  destruct (String.eqb id "cell");
    [|destruct (String.eqb id "hallway"); [|destruct (String.eqb id "armory")]];
    repeat split; cbn; auto; apply Hf.
Qed.

Lemma theRoom_bind (k : Room.t -> M unit) w :
  bind theRoom k w =
    match Rooms.at_ (rooms w) (currentRoom w) with
    | Some room => k room w
    | None => Stuck
    end.
Proof.
  unfold theRoom, bind, read, lift.
  now destruct (Rooms.at_ (rooms w) (currentRoom w)).
Qed.

Lemma look_keepsLayout : keepsLayout look.
Proof.
  intros w w'. unfold look. rewrite theRoom_bind.
  destruct (Rooms.at_ (rooms w) (currentRoom w)) as [room|]; [|discriminate].
  intros [= <-]. apply layoutKept_refl.
Qed.

Lemma move_keepsLayout direction : keepsLayout (move direction).
Proof.
  intros w w' Hm.
  destruct (Rooms.at_ (rooms w) (currentRoom w)) as [room|] eqn:Hat.
  2: { revert Hm. unfold move. rewrite theRoom_bind, Hat. discriminate. }
  rewrite (move_eq w room direction Hat) in Hm.
  destruct (Js.truthy (Js.get (Room.exits room) direction));
    [|injection Hm as <-; apply layoutKept_refl].
  destruct (Js.truthy (Js.get (Room.blockedExits room) direction));
    [injection Hm as <-; apply layoutKept_refl|].
  destruct (Js.get (Room.exits room) direction) as [dest| |]; try discriminate.
  exact (look_keepsLayout _ _ Hm).
Qed.

Lemma take_keepsLayout itemName : keepsLayout (take itemName).
Proof.
  intros w w' Hm.
  destruct (Rooms.at_ (rooms w) (currentRoom w)) as [room|] eqn:Hat.
  2: { revert Hm. unfold take. rewrite theRoom_bind, Hat. discriminate. }
  rewrite (take_eq w room itemName Hat) in Hm.
  destruct (Js.includes (Room.items room) itemName);
    [|injection Hm as <-; apply layoutKept_refl].
  destruct (items itemName) as [item|]; [|discriminate].
  destruct (Item.canTake item); injection Hm as <-;
    [|apply layoutKept_refl].
  apply (layoutKept_update (currentRoom (pushInventory itemName w))).
  intros r. apply roomKept_set_items.
Qed.

Lemma pushCellItem_keepsLayout id w :
  layoutKept (rooms w) (rooms (pushCellItem id w)).
Proof. repeat split; auto. Qed.

Lemma examine_keepsLayout itemName : keepsLayout (examine itemName).
Proof.
  intros w w' Hm.
  destruct (Rooms.at_ (rooms w) (currentRoom w)) as [room|] eqn:Hat.
  2: { revert Hm. unfold examine. rewrite theRoom_bind, Hat. discriminate. }
  rewrite (examine_eq w room itemName Hat) in Hm.
  destruct (Js.includes (Room.items room) itemName
            || Js.includes (inventory w) itemName);
    [|injection Hm as <-; apply layoutKept_refl].
  unfold items in Hm.
  destruct (String.eqb itemName "stone").
  - change (Item.onExamine stone) with (Some stone_onExamine) in Hm.
    cbv iota in Hm. rewrite stone_onExamine_eq in Hm.
    destruct (negb _ && negb _) in Hm; cbn [Js.truthy] in Hm.
    + change (negb (String.eqb revealLine "")) with true in Hm.
      injection Hm as <-. apply (pushCellItem_keepsLayout "key" w).
    + change (negb (String.eqb staticLine "")) with true in Hm.
      injection Hm as <-. apply layoutKept_refl.
  - destruct (String.eqb itemName "key");
      [injection Hm as <-; apply layoutKept_refl|].
    destruct (String.eqb itemName "sword");
      [injection Hm as <-; apply layoutKept_refl | discriminate].
Qed.

Lemma listInventory_keepsLayout held : keepsLayout (listInventory held).
Proof.
  induction held as [|x held IH]; intros w w'; cbn [listInventory].
  - intros [= <-]. apply layoutKept_refl.
  - unfold bind, lift, say, print, modify.
    destruct (items x); [|discriminate]. cbv beta iota. unfold ret.
    cbv beta iota. intros Hm. exact (IH _ _ Hm).
Qed.

Lemma showInventory_keepsLayout : keepsLayout showInventory.
Proof.
  intros w w'. unfold showInventory, bind, read.
  destruct (Nat.eqb _ 0); [intros [= <-]; apply layoutKept_refl|].
  unfold say, print, modify. cbv beta iota. intros Hm.
  exact (listInventory_keepsLayout _ _ _ Hm).
Qed.

Lemma use_keepsLayout command : keepsLayout (use command).
Proof.
  intros w w'. rewrite use_eq.
  destruct (negb _); [intros [= <-]; apply layoutKept_refl|].
  destruct (keyOnDoor _ _ _).
  { intros [= <-]. repeat split; auto. cbn. intros d m. apply own_delete_some. }
  destruct (swordOnDoor _ _ _); intros [= <-]; [|apply layoutKept_refl].
  repeat split; auto. cbn. intros d m. apply own_delete_some.
Qed.

Lemma dispatch_keepsLayout verb noun : keepsLayout (dispatch verb noun).
Proof.
  unfold dispatch.
  repeat match goal with
  | |- keepsLayout (if ?x then _ else _) => destruct x
  end;
  auto using look_keepsLayout, move_keepsLayout, take_keepsLayout,
    examine_keepsLayout, showInventory_keepsLayout, use_keepsLayout.
  intros w w' [= <-]. apply layoutKept_refl.
Qed.

Lemma processCommand_keepsLayout : keepsLayout processCommand.
Proof.
  intros w w'. rewrite processCommand_parse.
  destruct (parse _) as [[verb noun]|]; [|intros [= <-]; apply layoutKept_refl].
  intros Hm. exact (dispatch_keepsLayout verb noun _ _ Hm).
Qed.

Lemma startGame_keepsLayout : keepsLayout startGame.
Proof.
  intros w w'. unfold startGame, bind, say, print, modify. cbv beta iota.
  intros Hm. exact (look_keepsLayout _ _ Hm).
Qed.

Lemma reachable_layout w : reachable w -> layoutKept initialRooms (rooms w).
Proof.
  induction 1 as [page | w w' _ IH Hs | w raw _ IH | w w' _ IH Hp].
  - apply layoutKept_refl.
  - eapply layoutKept_trans; [exact IH | exact (startGame_keepsLayout _ _ Hs)].
  - exact IH.
  - eapply layoutKept_trans; [exact IH | exact (processCommand_keepsLayout _ _ Hp)].
Qed.

(** X4. No function of the script rearranges the dungeon.  Whenever a
    submitted command or a click on the start button finishes, in any
    world at all, every room has the name, the description and the exits
    it had before, and no [blockedExits] entry it did not have before.
    Hence in every state the page can reach the rooms have the names,
    descriptions and exits they were loaded with, every exit leads to a
    room of the table, and every blocked direction is an exit of its
    room. *)
Theorem layout_kept :
  (forall w w',
     processCommand w = Done tt w' \/ startGame w = Done tt w' ->
     layoutKept (rooms w) (rooms w'))
  /\ (forall w,
        reachable w ->
        layoutKept initialRooms (rooms w)
        /\ (forall id room direction dest,
              roomAt w id room ->
              Js.own (Room.exits room) direction = Some dest ->
              exists room', roomAt w dest room')
        /\ (forall id room direction message,
              roomAt w id room ->
              Js.own (Room.blockedExits room) direction = Some message ->
              exists dest, Js.own (Room.exits room) direction = Some dest)).
Proof.
  split.
  - intros w w' [Hp | Hs];
      [exact (processCommand_keepsLayout w w' Hp)
      | exact (startGame_keepsLayout w w' Hs)].
  - intros w Hr. pose proof (reachable_layout w Hr) as Hk.
    split; [exact Hk|].
    destruct Hk as ((_ & _ & Hce & Hcb) & (_ & _ & Hhe & Hhb)
                    & (_ & _ & Hae & Hab)).
    split.
    + intros id room direction dest. unfold roomAt, Rooms.at_.
      destruct (String.eqb id "cell");
        [|destruct (String.eqb id "hallway");
          [|destruct (String.eqb id "armory")]];
        intros [= <-] || discriminate;
        rewrite ?Hce, ?Hhe, ?Hae; clear; run;
        intros Heq; first [discriminate | congruence | eexists; reflexivity].
    + intros id room direction message. unfold roomAt, Rooms.at_.
      destruct (String.eqb id "cell");
        [|destruct (String.eqb id "hallway");
          [|destruct (String.eqb id "armory")]];
        intros [= <-] || discriminate; intros Hb;
        [apply Hcb in Hb; rewrite Hce
        |apply Hhb in Hb; rewrite Hhe
        |apply Hab in Hb; rewrite Hae];
        revert Hb; clear; run;
        intros Heq; first [discriminate | congruence | eexists; reflexivity].
Qed.

Lemma layout_kept_witness :
  layoutKept (rooms keySeen) (rooms abandoned)
  /\ layoutKept initialRooms (rooms abandoned).
Proof.
  destruct layout_kept as [Hstep Hreach]. split.
  - apply (Hstep (set_commandInput "take key" keySeen) abandoned).
    left. vm_compute. reflexivity.
  - apply (Hreach abandoned abandoned_reachable).
Defined.

Lemma strictEq_unknown verb k :
  (forall v, verb = Some v -> ~ In v knownVerbs) -> In k knownVerbs ->
  strictEq verb k = false.
Proof.
  intros Hun Hk. destruct verb as [v|]; [|reflexivity]. cbn.
  destruct (String.eqb_spec v k) as [->|]; [|reflexivity].
  now destruct (Hun k eq_refl).
Qed.

(** X5. A verb outside the switch is answered, not obeyed: the input is
    echoed, "I don't understand that command." is printed, the field is
    cleared, and player, rooms and session flag stay as they were.  This
    needs no assumption on the world. *)
Theorem unknown_verb (w : World) (verb : option string) (noun : string) :
  parse (Dom.commandInput (dom w)) = Some (verb, noun) ->
  (forall v, verb = Some v -> ~ In v knownVerbs) ->
  processCommand w
    = Done tt (set_commandInput "" (emit [echoLine w; notUnderstood] w)).
Proof.
  intros Hparse Hun. rewrite processCommand_parse, Hparse. unfold dispatch.
  rewrite !(strictEq_unknown verb) by (assumption || (cbn; tauto)).
  cbn [orb]. cbv iota.
  unfold say, print, modify.
  change (Done tt (set_commandInput ""
                     (emit [notUnderstood] (emit [echoLine w] w)))
          = Done tt (set_commandInput "" (emit [echoLine w; notUnderstood] w))).
  now rewrite emit_emit.
Qed.

Lemma unknown_verb_witness :
  processCommand (set_commandInput " Dance wildly " (initial blankPage))
    = Done tt
        (set_commandInput ""
           (emit [ mkLine (Js.VString "> dance wildly") "text-gray-500";
                   notUnderstood ]
              (set_commandInput " Dance wildly " (initial blankPage)))).
Proof.
  refine (unknown_verb (set_commandInput " Dance wildly " (initial blankPage))
            (Some "dance") "wildly" eq_refl _).
  intros v [= <-]. cbn. intuition discriminate.
Defined.

(** X6. [showInventory] reports exactly what is held, in the order it
    was taken: one line "You are not carrying anything." for an empty
    inventory, otherwise the header "You are carrying:" and a line
    "- <name>" per item; nothing but the console changes. *)
Theorem inventory_listing (w : World) :
  wf w ->
  showInventory w = Done tt (emit (inventoryLines (inventory w)) w).
Proof.
  intros H. wf_open H. destruct d as [sb ia c v].
  cases_of Hp; cbv -[app]; rewrite <- ?app_assoc; reflexivity.
Qed.

Lemma inCellWithSword_wf : wf inCellWithSword.
Proof. wf_done. Qed.

Lemma inventory_listing_witness :
  showInventory inCellWithSword
    = Done tt (emit [ mkLine (Js.VString "You are carrying:") "";
                      mkLine (Js.VString "- Rusty Key") "";
                      mkLine (Js.VString "- Gleaming Sword") "" ]
                 inCellWithSword)
  /\ showInventory keyRevealed
       = Done tt (emit [mkLine (Js.VString "You are not carrying anything.") ""]
                    keyRevealed).
Proof.
  split.
  - exact (inventory_listing inCellWithSword inCellWithSword_wf).
  - exact (inventory_listing keyRevealed keyRevealed_wf).
Defined.

(** X7. [examine] answers for what is in the current room or held, and
    for nothing else.  A noun that is neither gets "You don't see that
    here." and nothing changes.  A visible noun is an item of the table;
    unless it is the stone, its description is printed and nothing
    changes (so a held item can be examined in any room); and the stone
    is visible only in the cell. *)
Theorem examine_contract (w : World) (noun : string) :
  wf w ->
  (visible w noun = false -> examine noun w = Done tt (emit [dontSee] w))
  /\ (visible w noun = true ->
      exists item,
        items noun = Some item
        /\ (noun <> "stone" ->
            examine noun w = Done tt (emit [descriptionLine item] w))
        /\ (noun = "stone" -> currentRoom w = "cell")).
Proof.
  intros H. destruct (wf_room w H) as [room Hat]. unfold visible.
  rewrite Hat, (examine_eq w room noun Hat).
  destruct (Js.includes (Room.items room) noun
            || Js.includes (inventory w) noun) eqn:Hvis.
  - split; [discriminate|]. intros _.
    destruct (wf_examine w room noun H Hat Hvis) as (item & Hitem & Heff).
    exists item. rewrite Hitem. split; [reflexivity|]. split.
    + intros Hne. destruct Heff as [-> | [-> _]]; [reflexivity | contradiction].
    + intros ->. exact (wf_stone_in_cell w room H Hat Hvis).
  - split; [reflexivity | discriminate].
Qed.

Lemma examine_contract_witness :
  examine "sword" inHallwayWithKey = Done tt (emit [dontSee] inHallwayWithKey)
  /\ examine "key" inHallwayWithKey
       = Done tt (emit [descriptionLine key] inHallwayWithKey).
Proof.
  destruct (examine_contract inHallwayWithKey "sword" inHallwayWithKey_wf)
    as [Hno _].
  destruct (examine_contract inHallwayWithKey "key" inHallwayWithKey_wf)
    as [_ Hyes].
  split; [exact (Hno eq_refl)|].
  destruct (Hyes eq_refl) as (item & Hitem & Hex & _).
  injection Hitem as <-. apply Hex. discriminate.
Defined.

Lemma mutation_page verb noun w w1 :
  mutation verb noun w w1 ->
  Dom.commandInput (dom w1) = Dom.commandInput (dom w)
  /\ Dom.startButtonHidden (dom w1) = Dom.startButtonHidden (dom w)
  /\ (Dom.inputAreaHidden (dom w1) = Dom.inputAreaHidden (dom w)
      \/ Dom.inputAreaHidden (dom w1) = true /\ gameRunning w1 = false).
Proof. intros []; cbn; auto. Qed.

(** X8. What a command does to the page.  After any input that is not
    blank the input field is empty and the start button is as it was;
    the input area stays as it was too, unless the command ended the
    session, which hides it. *)
Theorem command_page_effects (w w' : World) :
  wf w ->
  processCommand w = Done tt w' ->
  commandText w <> "" ->
  Dom.commandInput (dom w') = ""
  /\ Dom.startButtonHidden (dom w') = Dom.startButtonHidden (dom w)
  /\ (Dom.inputAreaHidden (dom w') = Dom.inputAreaHidden (dom w)
      \/ Dom.inputAreaHidden (dom w') = true /\ gameRunning w' = false).
Proof.
  intros H Hp Hne. pose proof (processCommand_mutation w H) as Hm.
  unfold parse in Hm. fold (commandText w) in Hm.
  destruct (String.eqb_spec (commandText w) ""); [contradiction|].
  destruct Hm as (w1 & l & ls & Hm & Hp'). rewrite Hp' in Hp.
  injection Hp as <-. apply mutation_page in Hm. exact Hm.
Qed.

Lemma command_page_effects_witness :
  Dom.commandInput
    (dom (world_of (processCommand aboutToEscape) aboutToEscape)) = ""
  /\ Dom.inputAreaHidden
       (dom (world_of (processCommand aboutToEscape) aboutToEscape)) = true.
Proof.
  destruct (command_page_effects aboutToEscape
              (world_of (processCommand aboutToEscape) aboutToEscape)
              aboutToEscape_wf eq_refl) as (Hfield & _ & _);
    [discriminate|].
  split; [exact Hfield | reflexivity].
Defined.

(** X9. Clicking the start button twice is the same as clicking it
    once: a second [startGame] right after the first finishes in the
    very same state. *)
Theorem startGame_twice (w w' : World) :
  startGame w = Done tt w' -> startGame w' = Done tt w'.
Proof.
  intros Hs.
  destruct (Rooms.at_ (rooms w) (currentRoom w)) as [room|] eqn:Hat.
  - rewrite (startGame_eq w room Hat) in Hs. injection Hs as <-.
    exact (startGame_eq _ room Hat).
  - exfalso. revert Hs.
    unfold startGame, look, theRoom, bind, say, print, modify, read.
    cbv beta iota.
    change (Rooms.at_ (rooms _) (currentRoom _))
      with (Rooms.at_ (rooms w) (currentRoom w)).
    rewrite Hat. discriminate.
Qed.

Lemma startGame_twice_witness : startGame started = Done tt started.
Proof. apply (startGame_twice (initial blankPage)). reflexivity. Defined.

Lemma own_delete_none o k d :
  Js.own o d = None -> Js.own (Js.delete o k) d = None.
Proof.
  induction o as [|[k' v] o IH]; cbn; [reflexivity|].
  destruct (String.eqb k' d) eqn:E; [discriminate|]. intros H.
  destruct (String.eqb k' k); cbn; [auto|]. rewrite E. auto.
Qed.

Lemma mutation_blocked verb noun w w1 id room room' direction :
  mutation verb noun w w1 ->
  Rooms.at_ (rooms w) id = Some room ->
  Rooms.at_ (rooms w1) id = Some room' ->
  Js.own (Room.blockedExits room) direction = None ->
  Js.own (Room.blockedExits room') direction = None.
Proof.
  intros Hm. unfold Rooms.at_.
  destruct (String.eqb id "cell");
    [|destruct (String.eqb id "hallway"); [|destruct (String.eqb id "armory")]];
    intros [= <-] || discriminate; intros [= <-];
    destruct Hm; cbn; unfold Rooms.update;
    repeat match goal with
    | |- context [if ?c then _ else _] => destruct c
    end; cbn; auto using own_delete_none.
Qed.

(** X10. An exit, once open, stays open: no command ever adds an entry
    to a room's [blockedExits]. *)
Theorem unblocked_stays_unblocked
    (w w' : World) (id : string) (room room' : Room.t) (direction : string) :
  wf w ->
  processCommand w = Done tt w' ->
  roomAt w id room -> roomAt w' id room' ->
  Js.own (Room.blockedExits room) direction = None ->
  Js.own (Room.blockedExits room') direction = None.
Proof.
  intros H Hp Hat Hat' Hopen. pose proof (processCommand_mutation w H) as Hm.
  destruct (parse _) as [[verb noun]|].
  - destruct Hm as (w1 & l & ls & Hm & Hp'). rewrite Hp' in Hp.
    injection Hp as <-.
    exact (mutation_blocked _ _ _ _ id room room' direction Hm Hat Hat' Hopen).
  - rewrite Hm in Hp. injection Hp as <-. unfold roomAt in *. congruence.
Qed.

Lemma unblocked_stays_unblocked_witness :
  Js.own (Room.blockedExits
            (Rooms.hallway (rooms (world_of (processCommand aboutToEscape)
                                            aboutToEscape)))) "east" = None.
Proof.
  exact (unblocked_stays_unblocked aboutToEscape
           (world_of (processCommand aboutToEscape) aboutToEscape)
           "hallway" _ _ "east" aboutToEscape_wf eq_refl eq_refl eq_refl eq_refl).
Defined.

(** X11. Nothing is ever dropped.  A command leaves the inventory as it
    is or appends one identifier at its tail, and that identifier is an
    item of the table whose [canTake] flag is set. *)
Theorem inventory_only_grows (w w' : World) :
  wf w ->
  processCommand w = Done tt w' ->
  inventory w' = inventory w
  \/ exists noun item,
       items noun = Some item /\ Item.canTake item = true
       /\ inventory w' = inventory w ++ [noun].
Proof.
  intros H Hp. pose proof (processCommand_mutation w H) as Hm.
  destruct (parse _) as [[verb noun]|].
  - destruct Hm as (w1 & l & ls & Hm & Hp'). rewrite Hp' in Hp.
    injection Hp as <-.
    destruct Hm as [ | | _ Htake | | | ]; try (left; reflexivity).
    right. unfold takeable in Htake.
    destruct (Rooms.at_ _ _); [|discriminate].
    destruct (items noun) as [item|] eqn:Hitem; [|discriminate].
    apply andb_true_iff in Htake as [_ Hcan].
    exists noun, item. repeat split; assumption.
  - rewrite Hm in Hp. injection Hp as <-. now left.
Qed.

Lemma inventory_only_grows_witness :
  inventory abandoned = inventory keySeen
  \/ exists noun item,
       items noun = Some item /\ Item.canTake item = true
       /\ inventory abandoned = inventory keySeen ++ [noun].
Proof.
  apply (inventory_only_grows (set_commandInput "take key" keySeen) abandoned).
  - wf_done.
  - vm_compute. reflexivity.
Defined.

(** ** More on the parser *)

Lemma split_beforeSpace s : Js.split (beforeSpace s) = [beforeSpace s].
Proof.
  induction s as [|c s IH]; cbn; [reflexivity|].
  destruct (Ascii.eqb c Js.space) eqn:E; cbn; [reflexivity|].
  now rewrite E, IH.
Qed.

Lemma before_after s :
  s = beforeSpace s /\ afterSpace s = ""
  \/ s = (beforeSpace s ++ " " ++ afterSpace s)%string.
Proof.
  induction s as [|c s IH]; cbn; [now left|].
  destruct (Ascii.eqb_spec c Js.space) as [->|_]; [now right|].
  destruct IH as [[IH Ha] | IH].
  - left. split; [now f_equal | exact Ha].
  - right. cbn. now f_equal.
Qed.

(** X12. The parser loses nothing.  For input that is not blank the verb
    is a non-empty text without a space, and the trimmed, lower-cased
    input is either the verb alone (the noun then being empty) or the
    verb, one space, and the noun. *)
Theorem parse_roundtrip (raw : string) (verb : option string) (noun : string) :
  parse raw = Some (verb, noun) ->
  exists v,
    verb = Some v
    /\ v <> ""
    /\ Js.split v = [v]
    /\ (Js.toLowerCase (Js.trim raw) = v /\ noun = ""
        \/ Js.toLowerCase (Js.trim raw) = (v ++ " " ++ noun)%string).
Proof.
  unfold parse.
  destruct (String.eqb_spec (Js.toLowerCase (Js.trim raw)) "") as [|Hne];
    [discriminate|].
  rewrite split_head, join_tail_split. intros [= <- <-].
  exists (beforeSpace (Js.toLowerCase (Js.trim raw))).
  split; [reflexivity|]. split; [|split; [apply split_beforeSpace|]].
  - destruct (Js.trim raw) as [|c t] eqn:Et; [now destruct Hne|].
    pose proof (trim_head raw c t Et) as Hc. cbn.
    rewrite lowerChar_space.
    destruct (Ascii.eqb c Js.space) eqn:E; [|discriminate].
    apply space_isWhiteSpace in E. congruence.
  - destruct (before_after (Js.toLowerCase (Js.trim raw))) as [[H1 H2] | H];
      [left | right]; auto.
Qed.

Lemma parse_roundtrip_witness :
  exists v,
    Some "take" = Some v
    /\ v <> ""
    /\ Js.split v = [v]
    /\ (Js.toLowerCase (Js.trim " Take  the KEY ") = v /\ " the key" = ""
        \/ Js.toLowerCase (Js.trim " Take  the KEY ")
             = (v ++ " " ++ " the key")%string).
Proof.
  exact (parse_roundtrip " Take  the KEY " (Some "take") " the key" eq_refl).
Defined.

Lemma lowerChar_idem c : Js.lowerChar (Js.lowerChar c) = Js.lowerChar c.
Proof. destruct c as [[] [] [] [] [] [] [] []]; reflexivity. Qed.

Lemma isWhiteSpace_lowerChar c :
  Js.isWhiteSpace (Js.lowerChar c) = Js.isWhiteSpace c.
Proof. destruct c as [[] [] [] [] [] [] [] []]; reflexivity. Qed.

Lemma toLowerCase_idem s : Js.toLowerCase (Js.toLowerCase s) = Js.toLowerCase s.
Proof. induction s as [|c s IH]; cbn; [reflexivity|]. now rewrite lowerChar_idem, IH. Qed.

Lemma trimStart_toLowerCase s :
  Js.trimStart (Js.toLowerCase s) = Js.toLowerCase (Js.trimStart s).
Proof.
  induction s as [|c s IH]; cbn; [reflexivity|].
  rewrite isWhiteSpace_lowerChar. now destruct (Js.isWhiteSpace c).
Qed.

Lemma trimEnd_toLowerCase s :
  Js.trimEnd (Js.toLowerCase s) = Js.toLowerCase (Js.trimEnd s).
Proof.
  induction s as [|c s IH]; cbn; [reflexivity|].
  rewrite IH, isWhiteSpace_lowerChar.
  destruct (Js.trimEnd s); cbn; [now destruct (Js.isWhiteSpace c) | reflexivity].
Qed.

Lemma trim_toLowerCase s : Js.trim (Js.toLowerCase s) = Js.toLowerCase (Js.trim s).
Proof. unfold Js.trim. now rewrite trimStart_toLowerCase, trimEnd_toLowerCase. Qed.

Lemma trimEnd_idem s : Js.trimEnd (Js.trimEnd s) = Js.trimEnd s.
Proof.
  induction s as [|c s IH]; cbn; [reflexivity|].
  destruct (Js.trimEnd s) as [|d t] eqn:E.
  - destruct (Js.isWhiteSpace c) eqn:Ec; cbn; [reflexivity|]. now rewrite Ec.
  - change (Js.trimEnd (String c (String d t)))
      with (match Js.trimEnd (String d t) with
            | EmptyString =>
                if Js.isWhiteSpace c then EmptyString else String c EmptyString
            | u => String c u
            end).
    now rewrite IH.
Qed.

Lemma trim_idem s : Js.trim (Js.trim s) = Js.trim s.
Proof.
  destruct (Js.trim s) as [|c t] eqn:E; [reflexivity|].
  pose proof (trim_head s c t E) as Hc.
  unfold Js.trim at 1. cbn [Js.trimStart]. rewrite Hc.
  rewrite <- E. unfold Js.trim. apply trimEnd_idem.
Qed.

Lemma submit_same_text w r1 r2 :
  Js.toLowerCase (Js.trim r1) = Js.toLowerCase (Js.trim r2) ->
  Js.toLowerCase (Js.trim r2) <> "" ->
  submit r1 w = submit r2 w.
Proof.
  intros Heq Hne. rewrite !submit_eq, !processCommand_eq. unfold echoLine.
  change (commandText (set_commandInput r1 w)) with (Js.toLowerCase (Js.trim r1)).
  change (commandText (set_commandInput r2 w)) with (Js.toLowerCase (Js.trim r2)).
  rewrite Heq.
  destruct (String.eqb_spec (Js.toLowerCase (Js.trim r2)) "");
    [contradiction | reflexivity].
Qed.

(** X13. Commands are read without regard to letter case or to
    whitespace around them: input that is not blank has the same effect
    lower-cased, and the same effect trimmed. *)
Theorem submit_case_and_padding (w : World) (raw : string) :
  Js.trim raw <> "" ->
  submit (Js.toLowerCase raw) w = submit raw w
  /\ submit (Js.trim raw) w = submit raw w.
Proof.
  intros Hne.
  assert (Hne' : Js.toLowerCase (Js.trim raw) <> "")
    by now rewrite toLowerCase_empty.
  split; apply submit_same_text; auto.
  - now rewrite trim_toLowerCase, toLowerCase_idem.
  - now rewrite trim_idem.
Qed.

Lemma submit_case_and_padding_witness :
  submit (Js.toLowerCase "  X Stone ") (initial blankPage)
    = submit "  X Stone " (initial blankPage)
  /\ submit (Js.trim "  X Stone ") (initial blankPage)
       = submit "  X Stone " (initial blankPage).
Proof.
  apply (submit_case_and_padding (initial blankPage) "  X Stone ").
  discriminate.
Defined.

(** ** More on use *)

Lemma split_cons c s :
  Js.split (String c s) =
    if Ascii.eqb c Js.space then EmptyString :: Js.split s
    else match Js.split s with
         | h :: t => String c h :: t
         | [] => [String c EmptyString]
         end.
Proof. reflexivity. Qed.

Lemma split_app_space a r :
  Js.split a = [a] -> Js.split (a ++ " " ++ r) = a :: Js.split r.
Proof.
  induction a as [|c a IH]; [reflexivity|].
  change (String c a ++ " " ++ r)%string with (String c (a ++ " " ++ r)).
  rewrite !split_cons.
  destruct (Ascii.eqb c Js.space); [discriminate|].
  destruct (Js.split a) as [|h [|h' t]] eqn:E.
  - now destruct (split_nonempty a).
  - intros Heq. injection Heq as Heq. subst h. now rewrite (IH eq_refl).
  - discriminate.
Qed.

(** X14. [use] reads the first and the third piece of its phrase and
    nothing else: the word in the middle can be any word, and whatever
    follows the third piece is ignored. *)
Theorem use_reads_two_pieces (w : World) (item middle target : string) :
  Js.split item = [item] -> Js.split middle = [middle] ->
  Js.split target = [target] ->
  (forall other rest,
     Js.split other = [other] ->
     use (item ++ " " ++ other ++ " " ++ rest) w
       = use (item ++ " " ++ middle ++ " " ++ rest) w)
  /\ (forall more,
        use (item ++ " " ++ middle ++ " " ++ target ++ " " ++ more) w
          = use (item ++ " " ++ middle ++ " " ++ target) w).
Proof.
  intros Hi Hm Ht. split.
  - intros other rest Ho. rewrite !use_eq.
    rewrite !(split_app_space item), (split_app_space other),
      (split_app_space middle) by assumption.
    reflexivity.
  - intros more. rewrite !use_eq.
    rewrite !(split_app_space item), !(split_app_space middle),
      (split_app_space target), Ht by assumption.
    reflexivity.
Qed.

Lemma use_reads_two_pieces_witness :
  use "key with door" inHallwayWithKey = use "key on door" inHallwayWithKey
  /\ use "key on door please" inHallwayWithKey
       = use "key on door" inHallwayWithKey.
Proof.
  destruct (use_reads_two_pieces inHallwayWithKey "key" "on" "door"
              eq_refl eq_refl eq_refl) as [Hmid Hrest].
  split; [exact (Hmid "with" "door" eq_refl) | exact (Hrest "please")].
Defined.

Lemma delete_idem o k : Js.delete (Js.delete o k) k = Js.delete o k.
Proof.
  unfold Js.delete. induction o as [|[k' v] o IH]; cbn; [reflexivity|].
  destruct (String.eqb k' k) eqn:E; cbn; [exact IH|]. now rewrite E, IH.
Qed.

(** X15. [use] always finishes and never uses anything up: the
    inventory, the player's room and every room's items, exits, name and
    description stay as they were.  The same phrase used again also
    finishes, and leaves the rooms and the session flag as the first use
    left them. *)
Theorem use_keeps_things (w : World) (command : string) :
  exists w' w'',
    use command w = Done tt w'
    /\ inventory w' = inventory w
    /\ currentRoom w' = currentRoom w
    /\ (forall id room room',
          roomAt w id room -> roomAt w' id room' ->
          Room.items room' = Room.items room
          /\ Room.exits room' = Room.exits room
          /\ Room.name room' = Room.name room
          /\ Room.description room' = Room.description room)
    /\ use command w' = Done tt w''
    /\ rooms w'' = rooms w'
    /\ gameRunning w'' = gameRunning w'.
Proof.
  assert (Hrooms : forall w1 : World,
            rooms w1 = rooms w
            \/ rooms w1 = rooms (unblockHallwayEast w)
            \/ rooms w1 = rooms (unblockCellNorth w) ->
            forall id room room',
              roomAt w id room -> roomAt w1 id room' ->
              Room.items room' = Room.items room
              /\ Room.exits room' = Room.exits room
              /\ Room.name room' = Room.name room
              /\ Room.description room' = Room.description room).
  { intros w1 Hw1 id room room'. unfold roomAt, Rooms.at_.
    destruct Hw1 as [-> | [-> | ->]];
      (destruct (String.eqb id "cell");
       [|destruct (String.eqb id "hallway");
         [|destruct (String.eqb id "armory")]]);
      intros [= <-] || discriminate; intros [= <-]; repeat split. }
  rewrite use_eq.
  destruct (negb (Js.includes_opt (inventory w)
                    (nth_error (Js.split command) 0))) eqn:Hheld.
  { eexists _, _. split; [reflexivity|]. do 2 (split; [reflexivity|]).
    split; [apply Hrooms; now left|].
    rewrite use_eq. change (inventory (emit _ w)) with (inventory w).
    rewrite Hheld. repeat split. }
  destruct (keyOnDoor w _ _) eqn:Hk.
  { eexists _, _. split; [reflexivity|]. do 2 (split; [reflexivity|]).
    split; [apply Hrooms; right; now left|].
    rewrite use_eq.
    change (inventory (emit _ (unblockHallwayEast w))) with (inventory w).
    rewrite Hheld.
    change (keyOnDoor (emit [unlockLine] (unblockHallwayEast w)))
      with (keyOnDoor w).
    rewrite Hk. split; [reflexivity|]. split; [|reflexivity].
    cbn -[Js.delete]. now rewrite delete_idem. }
  destruct (swordOnDoor w _ _) eqn:Hs.
  { eexists _, _. split; [reflexivity|]. do 2 (split; [reflexivity|]).
    split; [apply Hrooms; right; now right|].
    rewrite use_eq.
    change (inventory (escaped w)) with (inventory w). rewrite Hheld.
    change (keyOnDoor (escaped w)) with (keyOnDoor w). rewrite Hk.
    change (swordOnDoor (escaped w)) with (swordOnDoor w). rewrite Hs.
    split; [reflexivity|]. split; [|reflexivity].
    cbn -[Js.delete]. now rewrite delete_idem. }
  eexists _, _. split; [reflexivity|]. do 2 (split; [reflexivity|]).
  split; [apply Hrooms; now left|].
  rewrite use_eq. change (inventory (emit _ w)) with (inventory w).
  rewrite Hheld.
  change (keyOnDoor (emit [cantUse] w)) with (keyOnDoor w). rewrite Hk.
  change (swordOnDoor (emit [cantUse] w)) with (swordOnDoor w). rewrite Hs.
  repeat split.
Qed.

(** ** More invariants *)

(** X16. While a session is running the page shows it: in every
    reachable state with [gameRunning] set, the start button is hidden
    and the input area is not. *)
Theorem running_session_shown (w : World) :
  reachable w ->
  gameRunning w = true ->
  Dom.startButtonHidden (dom w) = true
  /\ Dom.inputAreaHidden (dom w) = false.
Proof.
  induction 1 as [page | w w' Hr IH Hs | w raw Hr IH | w w' Hr IH Hp].
  - discriminate.
  - intros _. apply reachable_wf in Hr. destruct (wf_room w Hr) as [room Hat].
    rewrite (startGame_eq w room Hat) in Hs. injection Hs as <-. now split.
  - exact IH.
  - intros Hrun. apply reachable_wf in Hr.
    pose proof (processCommand_mutation w Hr) as Hm.
    destruct (parse _) as [[verb noun]|];
      [|rewrite Hm in Hp; injection Hp as <-; auto].
    destruct Hm as (w1 & l & ls & Hm & Hp').
    rewrite Hp' in Hp. injection Hp as <-.
    change (gameRunning w1 = true) in Hrun.
    destruct (mutation_page _ _ _ _ Hm) as (_ & Hsb & Hia).
    destruct (mutation_gameRunning _ _ _ _ Hm) as [Heq | (Hoff & _)];
      [|congruence].
    rewrite Hrun in Heq. symmetry in Heq. destruct (IH Heq) as [IHsb IHia].
    split.
    + change (Dom.startButtonHidden (dom w1) = true).
      now rewrite Hsb.
    + change (Dom.inputAreaHidden (dom w1) = false).
      destruct Hia as [Hia | [_ Hoff]]; [now rewrite Hia | congruence].
Qed.

Lemma running_session_shown_witness :
  Dom.startButtonHidden (dom abandoned) = true
  /\ Dom.inputAreaHidden (dom abandoned) = false.
Proof.
  exact (running_session_shown abandoned abandoned_reachable eq_refl).
Defined.

(** X17. The stone cannot be taken.  In a well-formed world it lies in
    the cell and is not held, and [take] on it, in any room, prints
    "You can't take that." and changes nothing. *)
Theorem stone_never_taken (w : World) :
  wf w ->
  In "stone" (Room.items (Rooms.cell (rooms w)))
  /\ ~ In "stone" (inventory w)
  /\ take "stone" w = Done tt (emit [cantTake] w).
Proof.
  intros H. destruct (wf_room w H) as [room Hat].
  rewrite (take_eq w room "stone" Hat).
  change (items "stone") with (Some stone). cbv iota.
  change (Item.canTake stone) with false. cbv iota.
  split; [apply includes_In, wf_stone_present, H|].
  split; [|now destruct (Js.includes (Room.items room) "stone")].
  clear Hat. wf_open H. cases_of Hp; cbn; intuition discriminate.
Qed.

Lemma stone_never_taken_witness :
  In "stone" (Room.items (Rooms.cell (rooms keyRevealed)))
  /\ ~ In "stone" (inventory keyRevealed)
  /\ take "stone" keyRevealed = Done tt (emit [cantTake] keyRevealed).
Proof. exact (stone_never_taken keyRevealed keyRevealed_wf). Defined.

(** ** Short use phrases *)

(** C10, as stated, fails: the target is the third piece between single
    spaces, not the third token.  "key  door", two tokens with two spaces
    between them, has an empty second piece and "door" as its third, so
    in the hallway with the key held it unlocks the east door like
    "key on door". *)
Lemma use_two_tokens_counterexample :
  tokens "key  door" = ["key"; "door"]
  /\ Js.split "key  door" = ["key"; ""; "door"]
  /\ In "key" (inventory inHallwayWithKey)
  /\ currentRoom inHallwayWithKey = "hallway"
  /\ use "key  door" inHallwayWithKey
       = Done tt (emit [unlockLine] (unblockHallwayEast inHallwayWithKey))
  /\ use "key  door" inHallwayWithKey
       <> Done tt (emit [cantUse] inHallwayWithKey)
  /\ Js.own (Room.blockedExits (Rooms.hallway (rooms inHallwayWithKey))) "east"
       = Some "The door is locked."
  /\ Js.own (Room.blockedExits
               (Rooms.hallway (rooms (unblockHallwayEast inHallwayWithKey))))
            "east" = None.
Proof.
  repeat split; try reflexivity; [cbn; auto | vm_compute; discriminate].
Qed.

(** C10, amended.  A [use] phrase that splits at single spaces into
    fewer than three pieces (an empty piece counted between two
    consecutive spaces) leaves the target undefined, so neither rule
    applies: the answer is "You don't have that." when the first piece
    is not held and the generic failure otherwise, and nothing but the
    console changes.  This covers every phrase of fewer than three
    tokens that has no whitespace around it and single spaces between
    its tokens. *)
Theorem use_short_phrase (w : World) (command : string) :
  (List.length (Js.split command) < 3 -> noRuleApplies w command)
  /\ (Js.trim command = command -> singleSpaced command = true ->
      List.length (tokens command) < 3 ->
      List.length (Js.split command) < 3 /\ noRuleApplies w command).
Proof.
  assert (Hshort : List.length (Js.split command) < 3 ->
                   noRuleApplies w command).
  { intros Hlen.
    assert (Ht : nth_error (Js.split command) 2 = None)
      by (apply nth_error_None; lia).
    split; [exact Ht|].
    rewrite use_eq, Ht. unfold keyOnDoor, swordOnDoor. cbn [strictEq].
    rewrite !andb_false_r. cbn [andb].
    now destruct (Js.includes_opt _ _). }
  split; [exact Hshort|].
  intros Htrim Hsingle Hlen.
  assert (Hpieces : List.length (Js.split command) < 3).
  { destruct (String.eqb_spec command "") as [->|Hne]; [cbn; lia|].
    rewrite <- Htrim in Hsingle, Hne.
    rewrite <- Htrim at 1.
    now rewrite (tokens_split_trim command Hsingle Hne). }
  split; [exact Hpieces | exact (Hshort Hpieces)].
Qed.

Lemma use_short_phrase_witness :
  noRuleApplies inHallwayWithKey "key door"
  /\ use "key door" inHallwayWithKey = Done tt (emit [cantUse] inHallwayWithKey)
  /\ use "sword" inHallwayWithKey = Done tt (emit [dontHave] inHallwayWithKey).
Proof.
  assert (Hkey : noRuleApplies inHallwayWithKey "key door").
  { apply (proj2 (use_short_phrase inHallwayWithKey "key door"));
      [reflexivity | reflexivity | vm_compute; lia]. }
  assert (Hsword : noRuleApplies inHallwayWithKey "sword").
  { apply (proj1 (use_short_phrase inHallwayWithKey "sword")).
    vm_compute. lia. }
  split; [exact Hkey|]. split; [exact (proj2 Hkey) | exact (proj2 Hsword)].
Defined.
